(** * Verification of the discovery / sync engine of google-photos-synology-sync

    Shallow embedding of the JavaScript services:
    - [server/services/sync.cache.service.js]   (SyncCacheService)
    - [server/services/sync.service.js]         (SyncService, server tree)
    - [unnamed/part_003]                        (PhotosService)
    - [unnamed/part_006]                        (SyncService, older tree)
    - [unnamed/part_002]                        (express API routes)

    JS strings are Rocq [string]s, times and counters are [Z] (milliseconds),
    a JS [Map] is an association list in insertion order, [undefined] and
    [null] are [None]. *)

From Stdlib Require Import List String Ascii ZArith Lia Bool Arith Permutation.
Import ListNotations.

Local Open Scope Z_scope.

(* ------------------------------------------------------------------ *)
(** ** JavaScript string and [path] helpers *)

Module JsStr.

Definition chars (s : string) : list ascii := list_ascii_of_string s.
Definition of_chars (l : list ascii) : string := string_of_list_ascii l.

Definition slash : ascii := "/"%char.
Definition dot : ascii := "."%char.

(** [s.endsWith(suf)] *)
Definition ends_with (s suf : string) : bool :=
  let n := String.length s in
  let m := String.length suf in
  (m <=? n)%nat && String.eqb (substring (n - m) m s) suf.

(** [s.includes(sub)] *)
Fixpoint includes (s sub : string) : bool :=
  String.prefix sub s ||
  match s with
  | EmptyString => false
  | String _ r => includes r sub
  end.

(** [s.slice(-8)]: the last 8 characters (all of them when shorter). *)
Definition slice_last8 (s : string) : string :=
  let n := String.length s in
  substring (n - 8) (Nat.min n 8) s.

(** Characters after the last occurrence of [c]; the whole list if none.
    [s.split(c).pop()]. *)
Fixpoint after_last (c : ascii) (l : list ascii) : list ascii :=
  match l with
  | [] => []
  | x :: r =>
      if existsb (Ascii.eqb c) r then after_last c r
      else if Ascii.eqb x c then r else x :: r
  end.

(** Characters before the first occurrence of [c]: [s.split(c)[0]]. *)
Fixpoint before_first (c : ascii) (l : list ascii) : list ascii :=
  match l with
  | [] => []
  | x :: r => if Ascii.eqb x c then [] else x :: before_first c r
  end.

Definition split_pop (c : ascii) (s : string) : string :=
  of_chars (after_last c (chars s)).
Definition split_first (c : ascii) (s : string) : string :=
  of_chars (before_first c (chars s)).

Fixpoint skip_while (p : ascii -> bool) (l : list ascii) : list ascii :=
  match l with [] => [] | x :: r => if p x then skip_while p r else l end.

(** Drop trailing ['/'] characters (node's [path] ignores them). *)
Definition strip_trailing_slashes (l : list ascii) : list ascii :=
  rev (skip_while (fun a => Ascii.eqb a slash) (rev l)).

(** The last path segment, as node's posix [path.basename(p)]. *)
Definition segment (p : string) : list ascii :=
  after_last slash (strip_trailing_slashes (chars p)).

(** Index of the last ['.'] of a segment. *)
Fixpoint last_dot_aux (i : nat) (l : list ascii) (acc : option nat) : option nat :=
  match l with
  | [] => acc
  | x :: r => last_dot_aux (S i) r (if Ascii.eqb x dot then Some i else acc)
  end.

(** node's posix [path.extname(p)]: from the last ['.'] of the last
    segment to its end; empty when the segment has no dot, when its last
    dot is its first character (['.bashrc']) or when it is ['..']. *)
Definition extname (p : string) : string :=
  let seg := segment p in
  match last_dot_aux 0 seg None with
  | None => EmptyString
  | Some O => EmptyString
  | Some i =>
      if String.eqb (of_chars seg) ".." then EmptyString
      else of_chars (skipn i seg)
  end.

(** node's posix [path.basename(p, ext)]. *)
Definition basename (p ext : string) : string :=
  let seg := of_chars (segment p) in
  let n := String.length ext in
  if (n =? 0)%nat || (String.length p <? n)%nat then seg
  else if String.eqb ext p then EmptyString
  else if ends_with seg ext && negb (String.eqb seg ext)
       then substring 0 (String.length seg - n) seg
  else seg.

(** Decimal rendering of an integer, as JS template literals print a
    safe integer. *)
Fixpoint digits (fuel : nat) (n : N) (acc : string) : string :=
  match fuel with
  | O => acc
  | S f =>
      let acc' := String (ascii_of_N (48 + N.modulo n 10)) acc in
      if (n <? 10)%N then acc' else digits f (N.div n 10) acc'
  end.

Definition z_to_string (z : Z) : string :=
  let s := digits (S (N.to_nat (N.size (Z.abs_N z)))) (Z.abs_N z) EmptyString in
  if z <? 0 then String "-"%char s else s.

(** [path.join(dir, name)] for a directory without trailing slash and a
    plain file name. *)
Definition join (dir name : string) : string := (dir ++ "/" ++ name)%string.

End JsStr.

(* ------------------------------------------------------------------ *)
(** ** Media items as returned by the catalog API *)

(** [item.mediaMetadata]; [photo] / [video] stand for the presence of the
    [photo] / [video] sub-objects. *)
Record MediaMetadata := mkMeta {
  creationTime : option string;
  photo : bool;
  video : bool;
  width : option Z;
  height : option Z
}.

(** A media item object; every property may be missing ([None]). *)
Record MediaObj := mkItem {
  id : option string;
  filename : option string;
  mediaType : option string;
  mediaMetadata : option MediaMetadata
}.

(** A JS value that should be a media item: [None] is [null]/[undefined]. *)
Definition JsItem := option MediaObj.

(** JS truthiness of an optional string. *)
Definition truthy_str (o : option string) : bool :=
  match o with Some s => negb (String.eqb s "") | None => false end.

(** [a || b] on optional strings. *)
Definition or_str (a b : option string) : option string :=
  if truthy_str a then a else b.

(** Exceptions that can escape a service method. *)
Inductive JsError :=
| TypeError                      (* property read on null/undefined, ... *)
| Error (msg : string).

Inductive Result (A : Type) :=
| Ret (a : A)
| Throw (e : JsError).
Arguments Ret {A} a.
Arguments Throw {A} e.

(** [new Date(s).getTime()] for the ISO-8601 instants the catalog API
    returns (["YYYY-MM-DDTHH:MM:SSZ"]); [None] is [NaN].  The services are
    verified for any [getTime]; this one is used in concrete runs. *)
Module IsoDate.
Definition digit (a : ascii) : option Z :=
  let n := Z.of_N (N_of_ascii a) in
  if (48 <=? n) && (n <=? 57) then Some (n - 48) else None.

Fixpoint num_rev (l : list ascii) : option Z :=
  match l with
  | [] => Some 0
  | a :: r =>
      match digit a, num_rev r with
      | Some d, Some n => Some (d + 10 * n)
      | _, _ => None
      end
  end.

Definition field (l : list ascii) (i n : nat) : option Z :=
  match firstn n (skipn i l) with
  | [] => None
  | f => if (List.length f =? n)%nat then num_rev (rev f) else None
  end.

(** Days since 1970-01-01 of a proleptic Gregorian date. *)
Definition days_from_civil (y m d : Z) : Z :=
  let y' := if m <=? 2 then y - 1 else y in
  let era := y' / 400 in
  let yoe := y' - era * 400 in
  let mp := if m >? 2 then m - 3 else m + 9 in
  let doy := (153 * mp + 2) / 5 + d - 1 in
  let doe := yoe * 365 + yoe / 4 - yoe / 100 + doy in
  era * 146097 + doe - 719468.

Definition sep (l : list ascii) (i : nat) (c : ascii) : bool :=
  match nth_error l i with Some a => Ascii.eqb a c | None => false end.

Definition getTime (s : string) : option Z :=
  let l := list_ascii_of_string s in
  if negb ((List.length l =? 20)%nat && sep l 4 "-" && sep l 7 "-" && sep l 10 "T"
           && sep l 13 ":" && sep l 16 ":" && sep l 19 "Z") then None
  else
    match field l 0 4, field l 5 2, field l 8 2,
          field l 11 2, field l 14 2, field l 17 2 with
    | Some y, Some mo, Some d, Some h, Some mi, Some se =>
        if (1 <=? mo) && (mo <=? 12) && (1 <=? d) && (d <=? 31)
           && (h <=? 23) && (mi <=? 59) && (se <=? 59)
        then Some (((days_from_civil y mo d * 24 + h) * 60 + mi) * 60000 + se * 1000)
        else None
    | _, _, _, _, _, _ => None
    end.
End IsoDate.

(* ------------------------------------------------------------------ *)
(** ** [PhotosService.generateFileName] (part_003, lines 587-610) *)

Section FileName.
(** [new Date(s).getTime()] ([None] is [NaN]) and [Date.now()]. *)
Variable getTime : string -> option Z.
Variable now : Z.

(** The [try] block. *)
Definition generateFileName_try (item : JsItem) : Result string :=
  match item with
  | None => Throw (Error "Invalid item: missing required metadata")
  | Some it =>
      match mediaMetadata it with
      | None => Throw (Error "Invalid item: missing required metadata")
      | Some md =>
          if negb (truthy_str (creationTime md))
          then Throw (Error "Invalid item: missing required metadata")
          else
            let ct := match creationTime md with Some c => c | None => EmptyString end in
            let ext := JsStr.extname (match or_str (filename it) (Some EmptyString) with
                                      | Some f => f | None => EmptyString end) in
            (* path.basename(filename || id, ext) rejects undefined *)
            match or_str (filename it) (id it) with
            | None => Throw TypeError
            | Some base =>
                let name := JsStr.basename base ext in
                let timestamp := getTime ct in
                (* id.slice(-8) on undefined *)
                match id it with
                | None => Throw TypeError
                | Some i =>
                    let uniqueId := JsStr.slice_last8 i in
                    let finalTimestamp :=
                      match timestamp with Some t => t | None => now end in
                    Ret (name ++ "_" ++ JsStr.z_to_string finalTimestamp
                              ++ "_" ++ uniqueId ++ ext)%string
                end
            end
      end
  end.

(** The [catch] block: reads [item.mediaType] and [item.id]. *)
Definition generateFileName_catch (item : JsItem) : Result string :=
  match item with
  | None => Throw TypeError
  | Some it =>
      let ext := match mediaType it with
                 | Some t => if String.eqb t "video" then ".mp4"%string else ".jpg"%string
                 | None => ".jpg"%string end in
      let i := match or_str (id it) (Some "unknown"%string) with
               | Some s => s | None => "unknown"%string end in
      Ret (i ++ "_" ++ JsStr.z_to_string now ++ ext)%string
  end.

Definition generateFileName (item : JsItem) : Result string :=
  match generateFileName_try item with
  | Ret s => Ret s
  | Throw _ => generateFileName_catch item
  end.
End FileName.

(* ------------------------------------------------------------------ *)
(** ** JavaScript [Map] keyed by [item.id]

    Insertion-ordered association list; a key is an item id, which may be
    [undefined].  [set] replaces the value in place or appends, [delete]
    removes the key: the behaviour of [Map.prototype.set] / [delete]. *)

Definition key := option string.

Definition key_eqb (a b : key) : bool :=
  match a, b with
  | Some x, Some y => String.eqb x y
  | None, None => true
  | _, _ => false
  end.

Module JsMap.
Section M.
Context {V : Type}.

Fixpoint get (m : list (key * V)) (k : key) : option V :=
  match m with
  | [] => None
  | (k', v) :: r => if key_eqb k k' then Some v else get r k
  end.

Definition has (m : list (key * V)) (k : key) : bool :=
  match get m k with Some _ => true | None => false end.

Fixpoint replace (m : list (key * V)) (k : key) (v : V) : list (key * V) :=
  match m with
  | [] => []
  | (k', v') :: r => if key_eqb k k' then (k', v) :: replace r k v
                     else (k', v') :: replace r k v
  end.

Definition set (m : list (key * V)) (k : key) (v : V) : list (key * V) :=
  if has m k then replace m k v else m ++ [(k, v)].

Definition delete (m : list (key * V)) (k : key) : list (key * V) :=
  filter (fun kv => negb (key_eqb k (fst kv))) m.
End M.
End JsMap.

(** The file system: the set of paths that currently exist. *)
Definition Fs := list string.

(** [fs.existsSync(p)]; [existsSync(undefined)] is [false]. *)
Definition existsSync (fs : Fs) (p : option string) : bool :=
  match p with Some q => existsb (String.eqb q) fs | None => false end.

(* ------------------------------------------------------------------ *)
(** ** The sync cache ([server/services/sync.cache.service.js])

    An entry is the object stored by [updateItem]: the caller's fields
    ([localPath], [fileName], [verified]; [mediaMetadata] and [mimeType]
    play no role here) plus [lastSync].  [lastSync] is kept as the value
    of [new Date(data.lastSync).getTime()] ([None] is [NaN]). *)
Record CacheEntry := mkCache {
  localPath : option string;
  fileName : option string;
  verified : bool;
  lastSync : option Z
}.

Record SyncCache := mkSyncCache {
  syncCache : list (key * CacheEntry);
  isDirty : bool;
  (** the content of [.sync_cache.json], as last written by [saveCache] *)
  cacheFile : option (list (key * CacheEntry))
}.

(** [updateItem(itemId, data)] at time [now]. *)
Definition updateItem (now : Z) (c : SyncCache) (itemId : key) (data : CacheEntry)
  : SyncCache :=
  {| syncCache := JsMap.set (syncCache c) itemId
                    {| localPath := localPath data; fileName := fileName data;
                       verified := verified data; lastSync := Some now |};
     isDirty := true;
     cacheFile := cacheFile c |}.

Definition getItem (c : SyncCache) (itemId : key) : option CacheEntry :=
  JsMap.get (syncCache c) itemId.

(** [isItemSynced(itemId)]: [item ? true : false]. *)
Definition isItemSynced (c : SyncCache) (itemId : key) : bool :=
  match JsMap.get (syncCache c) itemId with Some _ => true | None => false end.

(** [saveCache()] (a successful [writeFileSync]). *)
Definition saveCache (c : SyncCache) : SyncCache :=
  if negb (isDirty c) then c
  else {| syncCache := syncCache c; isDirty := false; cacheFile := Some (syncCache c) |}.

(** The default [maxAge] of [cleanup]: 30 days in milliseconds. *)
Definition thirty_days : Z := 30 * 24 * 60 * 60 * 1000.

(** [now - syncDate > maxAge] ([NaN] compares false). *)
Definition expired (now maxAge : Z) (data : CacheEntry) : bool :=
  match lastSync data with
  | Some syncDate => maxAge <? now - syncDate
  | None => false
  end.

(** The [for (const [id, data] of this.syncCache.entries())] loop: it walks
    the entries and deletes the expired ones from the live map. *)
Fixpoint cleanup_loop (now maxAge : Z) (entries : list (key * CacheEntry))
         (live : list (key * CacheEntry)) (cleanupCount : nat)
  : list (key * CacheEntry) * nat :=
  match entries with
  | [] => (live, cleanupCount)
  | (i, data) :: r =>
      if expired now maxAge data
      then cleanup_loop now maxAge r (JsMap.delete live i) (S cleanupCount)
      else cleanup_loop now maxAge r live cleanupCount
  end.

(** [cleanup(maxAge)] at time [now]. *)
Definition cleanup (now maxAge : Z) (c : SyncCache) : SyncCache :=
  let '(live, cleanupCount) := cleanup_loop now maxAge (syncCache c) (syncCache c) 0 in
  let c' := {| syncCache := live; isDirty := isDirty c; cacheFile := cacheFile c |} in
  if (0 <? cleanupCount)%nat
  then saveCache {| syncCache := live; isDirty := true; cacheFile := cacheFile c |}
  else c'.

(* ------------------------------------------------------------------ *)
(** ** The sync state of [PhotosService] (part_003) *)

(** An entry of [this.syncState]: [{synced, path, timestamp}] or
    [{synced: false, error, timestamp}]. *)
Record SyncEntry := mkSyncEntry {
  synced : bool;
  path : option string;
  error : option string;
  timestamp : Z
}.

Section Duplicates.
Variable getTime : string -> option Z.

(** [`${new Date(item.mediaMetadata.creationTime).getTime()}`]. *)
Definition timestamp_str (md : MediaMetadata) : string :=
  match creationTime md with
  | Some c => match getTime c with
              | Some t => JsStr.z_to_string t
              | None => "NaN"%string
              end
  | None => "NaN"%string
  end.

(** The [for (const match of potentialMatches)] loop; [None] in the
    result is an exception ([item.id.endsWith] on undefined). *)
Fixpoint first_match (syncDir : string) (itemId : key) (matches : list string)
  : option (option string) :=
  match matches with
  | [] => Some None
  | m :: r =>
      let matchId := JsStr.split_first JsStr.dot (JsStr.split_pop "_"%char m) in
      match itemId with
      | None => None
      | Some i => if JsStr.ends_with i matchId then Some (Some (JsStr.join syncDir m))
                  else first_match syncDir itemId r
      end
  end.

(** [files.filter(file => file.includes(`_${timestamp}_`) &&
    file.endsWith(path.extname(item.filename)))]; [None] is the
    exception of [path.extname(undefined)], raised only when some file
    passes the first test. *)
Fixpoint potential_matches (pat : string) (fname : option string) (files : list string)
  : option (list string) :=
  match files with
  | [] => Some []
  | f :: r =>
      if JsStr.includes f pat then
        match fname with
        | None => None
        | Some fn =>
            match potential_matches pat fname r with
            | None => None
            | Some l => Some (if JsStr.ends_with f (JsStr.extname fn) then f :: l else l)
            end
        end
      else potential_matches pat fname r
  end.

(** [findDuplicateFile(item, syncDir)] (part_003, lines 612-652): the
    ledger [st], the file system [fs] (for [fs.promises.access]) and the
    listing of [syncDir] ([None] when [readdir] fails).  Returns the found
    path and the ledger afterwards. *)
Definition findDuplicateFile (st : list (key * SyncEntry)) (fs : Fs)
           (listing : option (list string)) (item : MediaObj) (syncDir : string)
  : option string * list (key * SyncEntry) :=
  let first :=
    match JsMap.get st (id item) with
    | Some e =>
        if synced e then
          if existsSync fs (path e) then inl (path e)
          else inr (JsMap.delete st (id item))
        else inr st
    | None => inr st
    end in
  match first with
  | inl p => (p, st)
  | inr st' =>
      match mediaMetadata item with
      | None => (None, st')
      | Some md =>
          let pat := ("_" ++ timestamp_str md ++ "_")%string in
          match listing with
          | None => (None, st')
          | Some files =>
              match potential_matches pat (filename item) files with
              | None => (None, st')
              | Some ms =>
                  match first_match syncDir (id item) ms with
                  | Some r => (r, st')
                  | None => (None, st')
                  end
              end
          end
      end
  end.
End Duplicates.

(* ------------------------------------------------------------------ *)
(** ** [SyncService] of the server tree ([server/services/sync.service.js]) *)

Section ServerSync.
Variable getTime : string -> option Z.
(** [Date.now()] during the run. *)
Variable now : Z.
(** Whether the HTTP transfer of an item completes (the axios request
    and the write stream both succeed).  A failed request leaves the disk
    unchanged. *)
Variable transfer : MediaObj -> bool.

Record DlResult := mkDl {
  success : bool;
  skipped : bool;
  dlFilePath : option string
}.

(** What the services see of the machine: the cache and the files. *)
Record Disk := mkDisk {
  cache : SyncCache;
  files : Fs
}.

(** The skip test of [downloadItem]:
    [cachedItem && fs.existsSync(cachedItem.localPath)]. *)
Definition already_synced (d : Disk) (item : MediaObj) : bool :=
  match getItem (cache d) (id item) with
  | Some ci => existsSync (files d) (localPath ci)
  | None => false
  end.

(** [downloadItem(item, syncDir)] (lines 111-151). *)
Definition downloadItem (syncDir : string) (d : Disk) (item : MediaObj)
  : DlResult * Disk :=
  if already_synced d item then (mkDl true true None, d)
  else
    match generateFileName getTime now (Some item) with
    | Throw _ => (mkDl false false None, d)
    | Ret fname =>
        let filePath := JsStr.join syncDir fname in
        if transfer item then
          (mkDl true false (Some filePath),
           mkDisk (updateItem now (cache d) (id item)
                     (mkCache (Some filePath) (Some fname) false None))
                  (filePath :: files d))
        else (mkDl false false None, d)
    end.

(** [discoveryItems.find(item => generateFileName(item) === fileName)]. *)
Fixpoint find_by_name (items : list MediaObj) (fname : string) : option MediaObj :=
  match items with
  | [] => None
  | it :: r =>
      match generateFileName getTime now (Some it) with
      | Ret n => if String.eqb n fname then Some it else find_by_name r fname
      | Throw _ => find_by_name r fname
      end
  end.

(** The matching loop of [verifyExistingFiles(syncDir, discoveryItems)]
    (lines 153-227) over the recursive listing [existing] of [syncDir];
    [cancelled] is [websocketService.currentSync.isCancelled]. *)
Fixpoint verify_loop (cancelled : bool) (items : list MediaObj)
         (existing : list string) (c : SyncCache) : SyncCache :=
  match existing with
  | [] => c
  | filePath :: r =>
      if cancelled then c
      else
        let fname := JsStr.basename filePath EmptyString in
        let c' := match find_by_name items fname with
                  | Some m => updateItem now c (id m)
                                (mkCache (Some filePath) (Some fname) true None)
                  | None => c
                  end in
        verify_loop cancelled items r c'
  end.

(** [!cachedItem || !cachedItem.verified || !fs.existsSync(cachedItem.localPath)] *)
Definition needs_sync (d : Disk) (item : MediaObj) : bool :=
  match getItem (cache d) (id item) with
  | None => true
  | Some ci => negb (verified ci) || negb (existsSync (files d) (localPath ci))
  end.

(** The download loop of [startSync] (lines 297-338). *)
Fixpoint sync_loop (syncDir : string) (cancelled : bool) (items : list MediaObj)
         (d : Disk) (processedItems : nat) : Disk * nat :=
  match items with
  | [] => (d, processedItems)
  | item :: r =>
      if cancelled then (d, processedItems)
      else
        let '(result, d1) := downloadItem syncDir d item in
        let d2 :=
          if success result then
            match getItem (cache d1) (id item) with
            | Some ci => mkDisk (updateItem now (cache d1) (id item)
                                   (mkCache (localPath ci) (fileName ci) true (lastSync ci)))
                                (files d1)
            | None => d1
            end
          else d1 in
        sync_loop syncDir cancelled r d2 (S processedItems)
  end.

Inductive RunStatus := StCompleted | StError.

Record RunOutcome := mkOutcome {
  final_disk : Disk;
  cleanupInvoked : bool;
  run_status : RunStatus
}.

(** [startSync(auth)] (lines 229-358) on a development machine
    ([validateSyncDirectory] accepts), with the discovered [items], the
    recursive listing [existing] of [syncDir] and no pause. *)
Definition startSync (syncDir : string) (cancelled : bool)
           (items : list MediaObj) (existing : list string) (d : Disk) : RunOutcome :=
  match items with
  | [] => mkOutcome d false StError
  | _ =>
      let d1 := mkDisk (verify_loop cancelled items existing (cache d)) (files d) in
      let itemsToSync := filter (needs_sync d1) items in
      match itemsToSync with
      | [] => mkOutcome d1 false StCompleted
      | _ =>
          let '(d2, _) := sync_loop syncDir cancelled itemsToSync d1 0 in
          mkOutcome (mkDisk (cleanup now thirty_days (cache d2)) (files d2)) true StCompleted
      end
  end.
End ServerSync.

(* ------------------------------------------------------------------ *)
(** ** Discovery: [PhotosService.getPhotos] (part_003, lines 170-365) and
       the [POST /discover] route (part_002, lines 197-275) *)

(** The body of a [mediaItems.list] response. *)
Record ListResponse := mkResp {
  resp_mediaItems : option (list MediaObj);
  resp_nextPageToken : option string
}.

(** The [options] fields that [getPhotos] and the sibling implementations
    read. *)
Record DiscoveryOptions := mkOpts {
  discoveryLimit : option nat;
  pageToken : option string;
  useDateRange : bool;
  startDate : option string;
  endDate : option string;
  forceFreshDiscovery : bool
}.

(** The local variables of the discovery loop.  The size estimate is a
    floating-point heuristic and is not modelled. *)
Record LoopState := mkLoop {
  acc_items : list MediaObj;
  photoCount : nat;
  videoCount : nat;
  nextPageToken : option string;
  pageCount : nat
}.

(** [this.discoveryResults] as built at the end of [getPhotos]; the object
    literal has no [hasMore] key, so reading it gives [undefined]. *)
Record DiscoveryResults := mkResults {
  res_items : list MediaObj;
  res_photoCount : nat;
  res_videoCount : nat;
  totalItems : nat;
  pagesScanned : nat;
  hasMore : option bool
}.

(** The array returned by [getPhotos], with its optional [nextPageToken]
    property (part_003 never defines it). *)
Record ItemArray := mkArray {
  arr_items : list MediaObj;
  arr_nextPageToken : option string
}.

(** The [discovery] object of the JSON response of [POST /discover]. *)
Record DiscoverResponse := mkDiscoverResponse {
  d_totalItems : nat;
  d_photoCount : nat;
  d_videoCount : nat;
  d_hasMore : option bool;
  d_nextPageToken : option string;
  d_pagesScanned : nat
}.

Section Discovery.
(** [this.isCancelled] (not changed during a discovery call) and the
    rate-limited catalog call, as a function of the page token. *)
Variable isCancelled : bool.
Variable api : option string -> ListResponse.

(** The [newItems.forEach] counting of photos and videos. *)
Fixpoint count_media (l : list MediaObj) (pc vc : nat) : nat * nat :=
  match l with
  | [] => (pc, vc)
  | it :: r =>
      match mediaMetadata it with
      | Some md =>
          if photo md then count_media r (S pc) vc
          else if video md then count_media r pc (S vc)
          else count_media r pc vc
      | None => count_media r pc vc
      end
  end.

(** The [do { ... } while (nextPageToken)] loop.  [fuel] bounds the
    iterations; the body breaks once [pageCount >= maxPages], so [maxPages]
    units of fuel are never exhausted. *)
Fixpoint discover_loop (maxPages : nat) (fuel : nat) (st : LoopState) : LoopState :=
  match fuel with
  | O => st
  | S f =>
      if isCancelled then st
      else
        let pc := S (pageCount st) in
        let response := api (nextPageToken st) in
        let st1 :=
          match resp_mediaItems response with
          | Some newItems =>
              let '(p, v) := count_media newItems (photoCount st) (videoCount st) in
              mkLoop (acc_items st ++ newItems) p v (resp_nextPageToken response) pc
          | None =>
              mkLoop (acc_items st) (photoCount st) (videoCount st)
                     (resp_nextPageToken response) pc
          end in
        if (maxPages <=? pc)%nat then st1
        else if truthy_str (nextPageToken st1) then discover_loop maxPages f st1
        else st1
  end.

(** [options.discoveryLimit || 5] *)
Definition maxPages_of (o : DiscoveryOptions) : nat :=
  match discoveryLimit o with Some (S n) => S n | _ => 5%nat end.

(** [getPhotos(auth, options)] after authentication; [cached] is the
    outcome of [loadDiscoveryCache] ([None] when there is no usable
    cache).  Returns the array and [this.discoveryResults]. *)
Definition getPhotos (cached : option DiscoveryResults) (o : DiscoveryOptions)
  : ItemArray * DiscoveryResults :=
  match (if forceFreshDiscovery o then None else cached) with
  | Some r => (mkArray (res_items r) None, r)
  | None =>
      let maxPages := maxPages_of o in
      let st0 := mkLoop [] 0 0 (or_str (pageToken o) None) 0 in
      let st := discover_loop maxPages maxPages st0 in
      (mkArray (acc_items st) None,
       mkResults (acc_items st) (photoCount st) (videoCount st)
                 (List.length (acc_items st)) (pageCount st) None)
  end.

(** [POST /discover]: the [discovery] object of the response. *)
Definition route_discover (cached : option DiscoveryResults) (o : DiscoveryOptions)
  : DiscoverResponse :=
  let '(photos, r) := getPhotos cached o in
  mkDiscoverResponse (totalItems r) (res_photoCount r) (res_videoCount r)
                     (hasMore r) (arr_nextPageToken photos) (pagesScanned r).
End Discovery.

(** The date post-pass of the sibling [getPhotos] in
    [server/routes/settings.routes.js] (lines 412-427), for comparison:
    [itemDate >= startDate && itemDate <= endDate], items without a
    creation time dropped; comparisons with [NaN] are false. *)
Definition sibling_date_filter (getTime : string -> option Z) (o : DiscoveryOptions)
           (l : list MediaObj) : list MediaObj :=
  if useDateRange o && truthy_str (startDate o) && truthy_str (endDate o) then
    let sd := match startDate o with Some s => getTime s | None => None end in
    let ed := match endDate o with Some s => getTime s | None => None end in
    filter (fun it =>
              match mediaMetadata it with
              | Some md =>
                  if truthy_str (creationTime md) then
                    match creationTime md with
                    | Some c =>
                        match getTime c, sd, ed with
                        | Some t, Some a, Some b => (a <=? t) && (t <=? b)
                        | _, _, _ => false
                        end
                    | None => false
                    end
                  else false
              | None => false
              end) l
  else l.

(** A synthetic catalog of [pages]: the token of page [k > 0] is the string
    of [k] letters ["x"]; page [k] carries the token of page [k+1] while
    there is one. *)
Fixpoint xs (k : nat) : string :=
  match k with O => EmptyString | S n => String "x"%char (xs n) end.

Definition tok_of (k : nat) : option string :=
  match k with O => None | S _ => Some (xs k) end.

Definition catalog_api (pages : list (list MediaObj)) (tok : option string) : ListResponse :=
  let k := match tok with None => O | Some t => String.length t end in
  mkResp (Some (nth k pages []))
         (if (S k <? List.length pages)%nat then tok_of (S k) else None).

(* ------------------------------------------------------------------ *)
(** ** PhotosService.rateLimitedRequest (part_003, lines 109-142) *)

(** [parseInt(s)] (radix omitted): leading white space, an optional sign,
    a [0x]/[0X] prefix selecting radix 16, then the longest run of digits
    of the radix; [None] is [NaN] (no digit at all). *)
Module JsParseInt.

Definition is_ws (c : ascii) : bool :=
  let n := nat_of_ascii c in ((9 <=? n) && (n <=? 13))%nat || (n =? 32)%nat.

Definition digit_value (c : ascii) : option Z :=
  let n := Z.of_nat (nat_of_ascii c) in
  if (48 <=? n) && (n <=? 57) then Some (n - 48)
  else if (97 <=? n) && (n <=? 122) then Some (n - 87)
  else if (65 <=? n) && (n <=? 90) then Some (n - 55)
  else None.

Fixpoint parse_digits (radix : Z) (l : list ascii) (acc : option Z) : option Z :=
  match l with
  | [] => acc
  | c :: r =>
      match digit_value c with
      | Some d =>
          if d <? radix
          then parse_digits radix r (Some (match acc with Some a => a | None => 0 end * radix + d))
          else acc
      | None => acc
      end
  end.

Definition parseInt (s : string) : option Z :=
  let l := JsStr.skip_while is_ws (JsStr.chars s) in
  let '(sign, l1) :=
    match l with
    | c :: r => if Ascii.eqb c "-"%char then (-1, r)
                else if Ascii.eqb c "+"%char then (1, r) else (1, l)
    | [] => (1, l)
    end in
  let '(radix, l2) :=
    match l1 with
    | z :: x :: r =>
        if Ascii.eqb z "0"%char && (Ascii.eqb x "x"%char || Ascii.eqb x "X"%char)
        then (16, r) else (10, l1)
    | _ => (10, l1)
    end in
  option_map (fun v => sign * v) (parse_digits radix l2 None).

End JsParseInt.

(** [parseInt(error.response.headers['retry-after']) || 60]: [NaN] and [0]
    are falsy; an absent header is [parseInt(undefined)], i.e. [NaN]. *)
Definition retry_after_seconds (h : option string) : Z :=
  match h with
  | Some s =>
      match JsParseInt.parseInt s with
      | Some v => if v =? 0 then 60 else v
      | None => 60
      end
  | None => 60
  end.

(** A rejection of [requestFn]: [error.response.status] and the
    [retry-after] header. *)
Record HttpError := mkHttpError { status : option Z; retryAfterHeader : option string }.

Inductive Reply := Ok (n : nat) | Fail (e : HttpError).

(** The limiter's fields, the clock ([Date.now()]) and an instrumentation
    log: [calls] counts invocations of [requestFn], [issued] records for each
    one the pair ([lastRequestTime], [Date.now()]) at the time it was issued,
    [sleeps] the arguments passed to [this.sleep]. *)
Record Limiter := mkLimiter {
  requestsThisMinute : Z;
  lastRequestTime : Z;
  clock : Z;
  calls : nat;
  issued : list (Z * Z);
  sleeps : list Z
}.

Definition RATE_LIMIT : Z := 250.

(** [setTimeout] runs a callback with delay [d] after [d] ms, and after 1 ms
    when [d < 1] or [d > 2147483647]. *)
Definition timer_delay (d : Z) : Z :=
  if (d <? 1) || (2147483647 <? d) then 1 else d.

Definition sleep (d : Z) (s : Limiter) : Limiter :=
  mkLimiter (requestsThisMinute s) (lastRequestTime s) (clock s + timer_delay d)
            (calls s) (issued s) (sleeps s ++ [d]).

Definition set_requests (n : Z) (s : Limiter) : Limiter :=
  mkLimiter n (lastRequestTime s) (clock s) (calls s) (issued s) (sleeps s).

Definition set_window (n last : Z) (s : Limiter) : Limiter :=
  mkLimiter n last (clock s) (calls s) (issued s) (sleeps s).

(** Time passing between two calls. *)
Definition advance (g : Z) (s : Limiter) : Limiter :=
  mkLimiter (requestsThisMinute s) (lastRequestTime s) (clock s + g)
            (calls s) (issued s) (sleeps s).

(** [await requestFn()]; the reply of the [n]-th invocation is [respond n]. *)
Definition call (respond : nat -> Reply) (s : Limiter) : Reply * Limiter :=
  (respond (calls s),
   mkLimiter (requestsThisMinute s) (lastRequestTime s) (clock s) (S (calls s))
             (issued s ++ [(lastRequestTime s, clock s)]) (sleeps s)).

(** Lines 110-126: the window reset and the wait at the ceiling. *)
Definition prepare (s : Limiter) : Limiter :=
  let now := clock s in
  let timeElapsedSinceLastRequest := now - lastRequestTime s in
  let s1 := if 60000 <=? timeElapsedSinceLastRequest then set_window 0 now s else s in
  if RATE_LIMIT <=? requestsThisMinute s1 then
    let waitTime := 60000 - timeElapsedSinceLastRequest in
    let s' := sleep waitTime s1 in
    set_window 0 (clock s') s'
  else s1.

Definition rateLimitedRequest (respond : nat -> Reply) (s : Limiter) : Reply * Limiter :=
  let s2 := prepare s in
  let s3 := set_requests (requestsThisMinute s2 + 1) s2 in
  let '(r, s4) := call respond s3 in
  match r with
  | Ok _ => (r, s4)
  | Fail e =>
      if match status e with Some c => c =? 429 | None => false end then
        let retryAfter := retry_after_seconds (retryAfterHeader e) in
        let s5 := sleep (retryAfter * 1000) s4 in
        call respond (set_requests 0 s5)
      else (r, s4)
  end.

(** Sequential callers: each call awaited before the next, [g] ms apart. *)
Fixpoint run_requests (respond : nat -> Reply) (gaps : list Z) (s : Limiter) : Limiter :=
  match gaps with
  | [] => s
  | g :: r => run_requests respond r (snd (rateLimitedRequest respond (advance g s)))
  end.

(** Requests issued in the window starting at [w], and requests issued at a
    time in [[a, b)]. *)
Definition count_window (w : Z) (l : list (Z * Z)) : nat :=
  List.length (filter (fun p => fst p =? w) l).

Definition count_between (a b : Z) (l : list (Z * Z)) : nat :=
  List.length (filter (fun p => (a <=? snd p) && (snd p <? b)) l).


(* ------------------------------------------------------------------ *)
(** ** PhotosService.processDownloadQueue (part_003, lines 491-540): one batch *)

(** Where each task of [batch.map(async (item) => ...)] stands:
    waiting in [await this.sleep(100)], inside [processItem] (after its
    [activeDownloads++]), or finished (after the [finally]). *)
Inductive Task := Sleeping | Downloading | Finished.

Record Batch := mkBatch { activeDownloads : nat; tasks : list Task }.

(** The synchronous part of [batch.map]: each async callback runs up to its
    first [await].  A callback that finds [activeDownloads >= max] awaits
    [sleep(100)]; otherwise it increments the counter and enters
    [processItem]. *)
Fixpoint map_phase {A} (maxConcurrentDownloads : nat) (active : nat) (batch : list A)
  : nat * list Task :=
  match batch with
  | [] => (active, [])
  | _ :: r =>
      if (maxConcurrentDownloads <=? active)%nat then
        let '(a, l) := map_phase maxConcurrentDownloads active r in (a, Sleeping :: l)
      else
        let '(a, l) := map_phase maxConcurrentDownloads (S active) r in (a, Downloading :: l)
  end.

Definition batch_start {A} (maxConcurrentDownloads : nat) (active : nat) (batch : list A) : Batch :=
  let '(a, l) := map_phase maxConcurrentDownloads active batch in mkBatch a l.

Fixpoint set_nth {A} (i : nat) (x : A) (l : list A) : list A :=
  match l, i with
  | [], _ => []
  | _ :: r, O => x :: r
  | y :: r, S j => y :: set_nth j x r
  end.

(** The asynchronous events: the 100 ms timer of task [i] fires and it
    runs [this.activeDownloads++] (no new check), or the [processItem] of
    task [i] settles and its [finally] runs [this.activeDownloads--]. *)
Inductive BatchEvent := Wake (i : nat) | Settle (i : nat).

Definition batch_step (ev : BatchEvent) (b : Batch) : option Batch :=
  match ev with
  | Wake i =>
      match nth_error (tasks b) i with
      | Some Sleeping => Some (mkBatch (S (activeDownloads b)) (set_nth i Downloading (tasks b)))
      | _ => None
      end
  | Settle i =>
      match nth_error (tasks b) i with
      | Some Downloading => Some (mkBatch (pred (activeDownloads b)) (set_nth i Finished (tasks b)))
      | _ => None
      end
  end.

Fixpoint batch_run (evs : list BatchEvent) (b : Batch) : option Batch :=
  match evs with
  | [] => Some b
  | ev :: r => match batch_step ev b with Some b' => batch_run r b' | None => None end
  end.


(* ------------------------------------------------------------------ *)
(** ** The download loop of SyncService.startSync (part_006, lines 134-191)

    [activeDownloads] is a [Map] from [item.id] to the download's promise;
    [inFlight] records (as instrumentation) the ids of the downloads that
    are really running, one entry per started download.  The pause and
    cancel flags only disable starting: the steps below allow a start
    whatever they are, so every run of the loop is a run of this relation. *)
Record Orch := mkOrch { validQueue : list key; activeMap : list (key * unit); inFlight : list key }.

(** [Math.min(settings.concurrentDownloads || 3, 5)] *)
Definition concurrency_of (setting : option nat) : nat :=
  Nat.min (match setting with Some (S n) => S n | _ => 3%nat end) 5.

Fixpoint remove_first (k : key) (l : list key) : list key :=
  match l with
  | [] => []
  | x :: r => if key_eqb k x then r else x :: remove_first k r
  end.

Inductive orch_step (lim : nat) : Orch -> Orch -> Prop :=
  (** [validQueue.shift()] while [activeDownloads.size < concurrentDownloads];
      the file already exists: skipped. *)
  | orch_skip k q am fl :
      (List.length am < lim)%nat ->
      orch_step lim (mkOrch (k :: q) am fl) (mkOrch q am fl)
  (** the file does not exist: [activeDownloads.set(item.id, downloadPromise)]. *)
  | orch_download k q am fl :
      (List.length am < lim)%nat ->
      orch_step lim (mkOrch (k :: q) am fl) (mkOrch q (JsMap.set am k tt) (fl ++ [k]))
  (** a download settles: its [finally] runs [activeDownloads.delete(item.id)]. *)
  | orch_settle k q am fl :
      In k fl ->
      orch_step lim (mkOrch q am fl) (mkOrch q (JsMap.delete am k) (remove_first k fl)).

Inductive orch_reach (lim : nat) : Orch -> Orch -> Prop :=
  | orch_refl o : orch_reach lim o o
  | orch_next o o' o'' : orch_step lim o o' -> orch_reach lim o' o'' -> orch_reach lim o o''.


(* ------------------------------------------------------------------ *)
(** ** A run of SyncService.startSync (part_006, lines 137-196)

    The download loop, the final [Promise.all], and the cleanup guard
    [if (!isCancelled && settings.cleanupRemovedFiles)].  [queueLen] is
    [validQueue.length], [active] is [activeDownloads.size]; [finished]
    (instrumentation) counts the items whose download settled or that were
    skipped, [cleanedUp] whether [cleanupRemovedFiles] was called.  The
    pause, resume and cancel routes may flip the flags at any moment. *)
Module OlderSync.

Inductive Pc := PLoop | PDrain | PCleanup | PDone.

Record Run := mkRun {
  pc : Pc; queueLen : nat; active : nat; finished : nat;
  isPaused : bool; isCancelled : bool; cleanedUp : bool
}.

Definition with_flags (r : Run) (p c : bool) : Run :=
  mkRun (pc r) (queueLen r) (active r) (finished r) p c (cleanedUp r).

(** [(validQueue.length > 0 || activeDownloads.size > 0) && !isCancelled] *)
Definition loop_cond (r : Run) : bool :=
  ((0 <? queueLen r)%nat || (0 <? active r)%nat) && negb (isCancelled r).

Section Steps.
Variable concurrentDownloads : nat.
Variable cleanupRemovedFiles : bool.

Inductive run_step : Run -> Run -> Prop :=
| rs_pause r : run_step r (with_flags r true (isCancelled r))
| rs_resume r : run_step r (with_flags r false (isCancelled r))
| rs_cancel r : run_step r (with_flags r (isPaused r) true)
(** the inner [while]: an item whose file exists is skipped *)
| rs_skip r :
    pc r = PLoop -> loop_cond r = true -> (0 < queueLen r)%nat ->
    (active r < concurrentDownloads)%nat -> isPaused r = false ->
    run_step r (mkRun PLoop (pred (queueLen r)) (active r) (S (finished r))
                      (isPaused r) (isCancelled r) (cleanedUp r))
(** ... otherwise its download starts *)
| rs_start r :
    pc r = PLoop -> loop_cond r = true -> (0 < queueLen r)%nat ->
    (active r < concurrentDownloads)%nat -> isPaused r = false ->
    run_step r (mkRun PLoop (pred (queueLen r)) (S (active r)) (finished r)
                      (isPaused r) (isCancelled r) (cleanedUp r))
(** a download settles; its [finally] removes it from the map *)
| rs_settle r :
    (0 < active r)%nat ->
    run_step r (mkRun (pc r) (queueLen r) (pred (active r)) (S (finished r))
                      (isPaused r) (isCancelled r) (cleanedUp r))
(** the outer [while] ends *)
| rs_exit r :
    pc r = PLoop -> loop_cond r = false ->
    run_step r (mkRun PDrain (queueLen r) (active r) (finished r)
                      (isPaused r) (isCancelled r) (cleanedUp r))
(** [await Promise.all(activeDownloads.values())] returns *)
| rs_drained r :
    pc r = PDrain -> active r = 0%nat ->
    run_step r (mkRun PCleanup (queueLen r) (active r) (finished r)
                      (isPaused r) (isCancelled r) (cleanedUp r))
(** the cleanup guard *)
| rs_cleanup r :
    pc r = PCleanup ->
    run_step r (mkRun PDone (queueLen r) (active r) (finished r)
                      (isPaused r) (isCancelled r)
                      (cleanedUp r || (negb (isCancelled r) && cleanupRemovedFiles))).

Inductive run_reach : Run -> Run -> Prop :=
| rr_refl r : run_reach r r
| rr_step r r' r'' : run_step r r' -> run_reach r' r'' -> run_reach r r''.
End Steps.

(** The state after [resetSyncStatus()] with [n] queued items. *)
Definition init (n : nat) : Run := mkRun PLoop n 0 0 false false false.

Definition cleanup_inv (setting : bool) (n : nat) (r : Run) : Prop :=
  (finished r + queueLen r + active r = n)%nat /\
  (pc r <> PLoop -> isCancelled r = true \/ queueLen r = 0%nat) /\
  ((pc r = PCleanup \/ pc r = PDone) -> active r = 0%nat) /\
  (cleanedUp r = true -> pc r = PDone /\ setting = true /\ queueLen r = 0%nat).

(** A complete run of one item with the setting on. *)
Definition full_run : Run := mkRun PDone 0 0 1 false false true.
End OlderSync.


(* ------------------------------------------------------------------ *)
(** ** The sync routes (part_002, lines 120-194) over the server SyncService

    [websocketService.currentSync] (the fields the routes read and write),
    [syncService.syncInProgress], and [activeRuns]: the number of
    [startSync] invocations started and not yet returned
    (instrumentation). *)
Module ServerRoutes.

Inductive SyncStatus :=
  Idle | Initializing | Verifying | Running | Paused | Completed | Cancelled | Failed.

Definition status_eqb (a b : SyncStatus) : bool :=
  match a, b with
  | Idle, Idle | Initializing, Initializing | Verifying, Verifying
  | Running, Running | Paused, Paused | Completed, Completed
  | Cancelled, Cancelled | Failed, Failed => true
  | _, _ => false
  end.

Record SyncState := mkSyncState {
  status : SyncStatus; isPaused : bool; isCancelled : bool;
  syncInProgress : bool; activeRuns : nat
}.

Record HttpResponse := mkHttpResponse { code : Z; body : string }.

Definition ok (msg : string) : HttpResponse := mkHttpResponse 200 msg.
Definition bad_request (msg : string) : HttpResponse := mkHttpResponse 400 msg.

(** The synchronous prefix of the server [startSync] (lines 229-236),
    up to its first [await]: it sets [syncInProgress] and the status
    ['initializing'] without looking at either. *)
Definition startSync_enter (s : SyncState) : SyncState :=
  mkSyncState Initializing (isPaused s) (isCancelled s) true (S (activeRuns s)).

(** [POST /sync], with the outcome of [await authService.authenticate()]. *)
Definition post_sync (authenticated : bool) (s : SyncState) : HttpResponse * SyncState :=
  if status_eqb (status s) Running || status_eqb (status s) Paused then
    (bad_request "Sync is already in progress", s)
  else if negb authenticated then (mkHttpResponse 401 "Not authenticated", s)
  else (ok "Sync started", startSync_enter s).

(** [POST /sync/pause] *)
Definition post_pause (s : SyncState) : HttpResponse * SyncState :=
  if status_eqb (status s) Running then
    (ok "Sync paused",
     mkSyncState Paused true (isCancelled s) (syncInProgress s) (activeRuns s))
  else (bad_request "Sync is not running", s).

(** [POST /sync/resume] *)
Definition post_resume (s : SyncState) : HttpResponse * SyncState :=
  if status_eqb (status s) Paused then
    (ok "Sync resumed",
     mkSyncState Running false (isCancelled s) (syncInProgress s) (activeRuns s))
  else (bad_request "Sync is not paused", s).

(** The initial state: [status: 'idle'], no run. *)
Definition idle : SyncState := mkSyncState Idle false false false 0.

End ServerRoutes.


(* ------------------------------------------------------------------ *)
(** ** Concrete inputs and invariants used by the proofs *)

(** Inputs of a sync run: one discovered item, already synced and
    verified, and a cache that also holds a 40-day-old entry. *)
Definition c9_item : MediaObj :=
  mkItem (Some "AF1QipABCDEFGHIJKLMNOP"%string) (Some "IMG_0001.JPG"%string) None
         (Some (mkMeta (Some "2020-01-01T00:00:00Z"%string) true false None None)).

Definition c9_now : Z := 1700000000000.

Definition c9_disk : Disk :=
  mkDisk (mkSyncCache
            [(id c9_item, mkCache (Some "/photos/IMG_0001_1577836800000_IJKLMNOP.JPG"%string)
                                  (Some "IMG_0001_1577836800000_IJKLMNOP.JPG"%string)
                                  true (Some (c9_now - 1000)));
             (Some "OLD"%string, mkCache (Some "/photos/old.jpg"%string) None true
                                          (Some (c9_now - 40 * 24 * 60 * 60 * 1000)))]
            false None)
         ["/photos/IMG_0001_1577836800000_IJKLMNOP.JPG"%string].

(** A photo item for the file name examples. *)
Definition sample : MediaObj :=
  mkItem (Some "AF1QipABCDEFGHIJKLMNOP"%string) (Some "IMG_0001.JPG"%string) None
         (Some (mkMeta (Some "2020-01-01T00:00:00Z"%string) true false None None)).

(** Items of a synthetic catalog page. *)
Definition page_item (i : string) : MediaObj :=
  mkItem (Some i) (Some (i ++ ".jpg")%string) None
         (Some (mkMeta (Some "2020-01-01T00:00:00Z"%string) true false None None)).

(** A [requestFn] whose first invocation is rejected with 429 and the
    given [retry-after] header, and whose later invocations succeed. *)
Definition reply_429 (h : option string) (n : nat) : Reply :=
  match n with
  | O => Fail (mkHttpError (Some 429) h)
  | S _ => Ok n
  end.

(** Invariant of the limiter between two calls: the counter is within
    [0, 250], the window start is not in the future, every issued request
    lies in the window it was counted in (which is not later than the
    current one), the current window has issued at most [requestsThisMinute]
    requests and every window at most 250. *)
Definition inv_fields (req last clk : Z) (l : list (Z * Z)) : Prop :=
  0 <= req <= RATE_LIMIT /\ last <= clk /\
  (forall p, In p l -> fst p <= last /\ fst p <= snd p < fst p + 60000) /\
  (count_window last l <= Z.to_nat req)%nat /\
  (forall w, (count_window w l <= 250)%nat).

Definition limiter_inv (s : Limiter) : Prop :=
  inv_fields (requestsThisMinute s) (lastRequestTime s) (clock s) (issued s).

Definition no_429 (respond : nat -> Reply) : Prop :=
  forall n e, respond n = Fail e -> status e <> Some 429.

(** C6, counterexample: from a fresh limiter, 250 requests at 59 s and 250
    more at 60 s are all issued: 500 requests within one second. *)
Definition burst_gaps : list Z := [59000] ++ repeat 0 249 ++ [1000] ++ repeat 0 249.

(** The part_006 download loop keeps the bound, as long as the queued ids
    are distinct. *)
Definition orch_inv (lim : nat) (o : Orch) : Prop :=
  map fst (activeMap o) = inFlight o /\ NoDup (validQueue o) /\ NoDup (inFlight o) /\
  (forall x, In x (validQueue o) -> ~ In x (inFlight o)) /\
  (List.length (activeMap o) <= lim)%nat.

Definition expired_key (now maxAge : Z) (entries : list (key * CacheEntry)) (k : key) : bool :=
  existsb (fun kv => key_eqb k (fst kv) && expired now maxAge (snd kv)) entries.

(* ------------------------------------------------------------------ *)
(** ** Older SyncService (part_006): file names written and file names kept *)

Section OlderCleanup.

(** [new Date(s).getTime()] ([None] is [NaN]). *)
Variable getTime : string -> option Z.

(** The [filename] of a queue item (part_006 lines 93-118): [null] when
    the item is skipped by the media-type settings or when reading
    [photo.mediaMetadata.video] throws. *)
Definition queue_filename (syncPhotos syncVideos : bool) (photo : MediaObj) : option string :=
  match mediaMetadata photo with
  | None => None
  | Some md =>
      let isVideo := video md in
      let extension := if isVideo then ".mp4"%string else ".jpg"%string in
      if (negb syncPhotos && negb isVideo) || (negb syncVideos && isVideo) then None
      else
        let id_str := match id photo with Some s => s | None => "undefined"%string end in
        Some (id_str ++ extension)%string
  end.

(** [generatePhotoFileName(photo)] (part_006 lines 315-321); [None] when it
    throws ([path.extname(undefined)], or [undefined.creationTime]). *)
Definition generatePhotoFileName (photo : MediaObj) : option string :=
  match filename photo with
  | None => None
  | Some fn =>
      let ext := JsStr.extname fn in
      let name := JsStr.basename fn ext in
      match mediaMetadata photo with
      | None => None
      | Some md =>
          let timestamp :=
            match creationTime md with
            | Some c => match getTime c with
                        | Some t => JsStr.z_to_string t
                        | None => "NaN"%string
                        end
            | None => "NaN"%string
            end in
          Some (name ++ "_" ++ timestamp ++ ext)%string
      end
  end.

(** [currentPhotos.map(photo => this.generatePhotoFileName(photo))]. *)
Fixpoint photo_names (currentPhotos : list MediaObj) : option (list string) :=
  match currentPhotos with
  | [] => Some []
  | photo :: rest =>
      match generatePhotoFileName photo with
      | None => None
      | Some n => match photo_names rest with
                  | None => None
                  | Some ns => Some (n :: ns)
                  end
      end
  end.

(** [cleanupRemovedFiles(syncDir, currentPhotos)] (part_006 lines 285-313)
    over the entries [files] of [readdir(syncDir)]: the list of entries it
    unlinks, or [None] when building the name set throws. *)
Definition cleanupRemovedFiles (files : list string) (currentPhotos : list MediaObj)
    : option (list string) :=
  match photo_names currentPhotos with
  | None => None
  | Some currentPhotoNames =>
      Some (filter (fun file => negb (existsb (String.eqb file) currentPhotoNames)) files)
  end.

End OlderCleanup.

(** Whether a string contains an underscore. *)
Definition has_underscore (s : string) : bool :=
  existsb (fun c => Ascii.eqb c "_"%char) (list_ascii_of_string s).

(** A catalog photo as the discovery step stores it. *)
Definition x2_photo : MediaObj :=
  mkItem (Some "AF1QipMx9"%string) (Some "IMG_0001.JPG"%string) (Some "image/jpeg"%string)
    (Some (mkMeta (Some "2023-05-01T10:00:00Z"%string) true false (Some 4032) (Some 3024))).

(* ------------------------------------------------------------------ *)
(** ** The sync routes and the server run, over [websocketService.currentSync] *)

Module SyncLifecycle.
Import ServerRoutes.

(** [POST /sync/cancel] (part_002, lines 178-194):
    [updateSyncStatus({isCancelled: true, status: 'cancelled'})]. *)
Definition post_cancel (s : SyncState) : HttpResponse * SyncState :=
  if status_eqb (status s) Running || status_eqb (status s) Paused then
    (ok "Sync cancelled",
     mkSyncState Cancelled (isPaused s) true (syncInProgress s) (activeRuns s))
  else (bad_request "No sync in progress", s).

(** The end of the server [startSync] (sync.service.js, lines 343-357):
    the last [updateSyncStatus] sets the status to ['completed'] or
    ['error'] and leaves the other fields of [currentSync] as they are;
    [finally] clears [syncInProgress]. *)
Definition finish_run (st : RunStatus) (s : SyncState) : SyncState :=
  mkSyncState (match st with StCompleted => Completed | StError => Failed end)
              (isPaused s) (isCancelled s) false (Nat.pred (activeRuns s)).

End SyncLifecycle.

(* ------------------------------------------------------------------ *)
(** ** The discovery cache of [PhotosService] (part_003, lines 43-48 and
       1041-1126) *)

(** [getDiscoveryCacheFilename(syncDir, userId)]; [syncDir = None] is
    [undefined], on which [path.join] throws. *)
Definition getDiscoveryCacheFilename (syncDir userId : option string) : Result string :=
  if negb (truthy_str userId) then Throw (Error "User ID is required for cache file")
  else
    match syncDir, userId with
    | Some d, Some u => Ret (JsStr.join d (".discovery_cache_" ++ u ++ ".json")%string)
    | _, _ => Throw TypeError
    end.

(** The object that [saveDiscoveryCache] writes, as [JSON.parse] gives it
    back: [results] is [this.discoveryResults] ([None] is [null]). *)
Record DiscoveryCacheFile := mkCacheFileData {
  cf_timestamp : option Z;
  cf_userId : option string;
  cf_results : option DiscoveryResults
}.

(** The cache files by path; a path that is absent cannot be read (or
    its content does not parse). *)
Definition CacheFs := list (string * DiscoveryCacheFile).

Fixpoint cfs_read (fs : CacheFs) (p : string) : option DiscoveryCacheFile :=
  match fs with
  | [] => None
  | (q, d) :: r => if String.eqb q p then Some d else cfs_read r p
  end.

(** [fs.promises.writeFile(p, ...)] (a successful write). *)
Definition cfs_write (fs : CacheFs) (p : string) (d : DiscoveryCacheFile) : CacheFs :=
  (p, d) :: filter (fun e => negb (String.eqb (fst e) p)) fs.

(** The settings read by [loadDiscoveryCache]: [enableCaching] (its
    truthiness) and [discoveryCacheTTL] ([None] is [undefined]). *)
Record CacheSettings := mkCacheSettings {
  enableCaching : bool;
  discoveryCacheTTL : option Z
}.

(** The [formattedResults] object; the size estimate is not modelled. *)
Record FormattedCache := mkFormatted {
  fc_results : DiscoveryResults;
  fc_timestamp : option Z;
  fc_cacheAge : option Z;
  fc_cacheTTL : option Z
}.

(** [a > b] on numbers that may be [NaN] or [undefined] ([None]). *)
Definition js_gt (a b : option Z) : bool :=
  match a, b with Some x, Some y => y <? x | _, _ => false end.

Definition opt_str_eqb (a b : option string) : bool :=
  match a, b with
  | Some x, Some y => String.eqb x y
  | None, None => true
  | _, _ => false
  end.

(** [saveDiscoveryCache(syncDir)] at time [now] (lines 1041-1059). *)
Definition saveDiscoveryCache (currentUserId : option string) (now : Z)
           (discoveryResults : option DiscoveryResults) (syncDir : option string)
           (fs : CacheFs) : CacheFs :=
  if negb (truthy_str currentUserId) then fs
  else
    match getDiscoveryCacheFilename syncDir currentUserId with
    | Throw _ => fs
    | Ret cachePath =>
        cfs_write fs cachePath (mkCacheFileData (Some now) currentUserId discoveryResults)
    end.

(** [loadDiscoveryCache(syncDir, options)] at time [now] (lines
    1061-1126): the value returned and [this.discoveryResults]
    afterwards.  Every [return null] and the [catch] give [None]. *)
Definition loadDiscoveryCache (settings : CacheSettings) (currentUserId : option string)
           (now : Z) (fs : CacheFs) (syncDir : option string) (forceFreshDiscovery : bool)
           (discoveryResults : option DiscoveryResults)
  : option FormattedCache * option DiscoveryResults :=
  if negb (enableCaching settings) then (None, discoveryResults)
  else if negb (truthy_str currentUserId) then (None, discoveryResults)
  else
    match getDiscoveryCacheFilename syncDir currentUserId with
    | Throw _ => (None, discoveryResults)
    | Ret cachePath =>
        match cfs_read fs cachePath with
        | None => (None, discoveryResults)
        | Some cacheData =>
            if negb (opt_str_eqb (cf_userId cacheData) currentUserId)
            then (None, discoveryResults)
            else
              let cacheAge := option_map (fun t => now - t) (cf_timestamp cacheData) in
              if js_gt cacheAge (discoveryCacheTTL settings) then (None, discoveryResults)
              else if forceFreshDiscovery then (None, discoveryResults)
              else
                match cf_results cacheData with
                | None => (None, discoveryResults)   (* [null.items] *)
                | Some r =>
                    let f := mkFormatted
                               (mkResults (res_items r) (res_photoCount r) (res_videoCount r)
                                          (totalItems r) (pagesScanned r) None)
                               (cf_timestamp cacheData) cacheAge
                               (discoveryCacheTTL settings) in
                    (Some f, Some (fc_results f))
                end
        end
    end.

(** [!discoveryResults || !discoveryResults.items ||
    discoveryResults.items.length === 0], negated. *)
Definition has_items (dr : option DiscoveryResults) : bool :=
  match dr with
  | Some r => match res_items r with [] => false | _ => true end
  | None => false
  end.

(** The discovery step of the server [startSync] (sync.service.js, lines
    253-265): [photosService.loadDiscoveryCache()] is called with no
    argument, so [syncDir] is [undefined] and [options] is [{}]. *)
Definition startSync_discovery (settings : CacheSettings) (currentUserId : option string)
           (now : Z) (fs : CacheFs) (discoveryResults : option DiscoveryResults)
  : Result (list MediaObj) :=
  let fail := Throw (Error "No items found in discovery cache. Please run discovery first.") in
  if has_items discoveryResults then
    match discoveryResults with Some r => Ret (res_items r) | None => fail end
  else
    let '(_, dr) := loadDiscoveryCache settings currentUserId now fs None false discoveryResults in
    if has_items dr then
      match dr with Some r => Ret (res_items r) | None => fail end
    else fail.

(* ------------------------------------------------------------------ *)
(** ** [PhotosService.downloadPhoto] and [processItem] (part_003, lines
       416-489 and 746-781) *)

(** An error raised by axios or the write stream: [error.code],
    [error.response?.status] and [error.message]. *)
Record JsErr := mkJsErr {
  err_code : option string;
  err_status : option Z;
  err_message : string
}.

(** What the promise of [downloadPhoto] settles to. *)
Inductive DPOutcome := DPTrue | DPUndefined | DPRejected (e : JsErr).

(** [shouldRetry(error)] (lines 772-781); [undefined >= 500] is false. *)
Definition shouldRetry (e : JsErr) : bool :=
  existsb (fun c => match err_code e with Some x => String.eqb x c | None => false end)
          ["ECONNRESET"; "ETIMEDOUT"; "ECONNREFUSED"; "NETWORK_ERROR"]%string
  || match err_status e with Some s => 500 <=? s | None => false end.

(** [const { retryAttempts = 3 } = options]. *)
Definition retryAttempts_of (o : option nat) : nat :=
  match o with Some n => n | None => 3%nat end.

Section DownloadPhoto.
Variable getTime : string -> option Z.
(** [Date.now()] *)
Variable now : Z.
(** The files (for [fs.promises.access] in [findDuplicateFile]) and the
    listing of the target directory ([None] when [readdir] fails). *)
Variable fs : Fs.
Variable listing : option (list string).
(** [(await fs.promises.stat(p)).size]; [None] when [stat] rejects. *)
Variable size_of : string -> option Z.
(** The outcome of request number [k] (from 0) with its write stream;
    [None] is success. *)
Variable attempt : nat -> option JsErr.

Definition synced_at (p : string) : SyncEntry := mkSyncEntry true (Some p) None now.

Definition failed_with (e : JsErr) : SyncEntry :=
  mkSyncEntry false None (Some (err_message e)) now.

(** The [while (attempts < retryAttempts)] loop (lines 452-488); [fuel]
    bounds the iterations.  Returns the outcome, [this.syncState] and the
    number of requests made. *)
Fixpoint retry_loop (retryAttempts fuel attempts : nat) (item : MediaObj)
         (targetPath : string) (st : list (key * SyncEntry))
  : DPOutcome * list (key * SyncEntry) * nat :=
  match fuel with
  | O => (DPUndefined, st, attempts)
  | S f =>
      if (attempts <? retryAttempts)%nat then
        match attempt attempts with
        | None => (DPTrue, JsMap.set st (id item) (synced_at targetPath), S attempts)
        | Some e =>
            let attempts' := S attempts in
            if (attempts' =? retryAttempts)%nat
            then (DPRejected e, JsMap.set st (id item) (failed_with e), attempts')
            else retry_loop retryAttempts f attempts' item targetPath st
        end
      else (DPUndefined, st, attempts)
  end.

(** [downloadPhoto(item, targetPath, options)] for [targetPath =
    path.join(targetDir, fileName)], whose [path.dirname] is [targetDir]. *)
Definition downloadPhoto (st : list (key * SyncEntry)) (item : MediaObj)
           (targetDir fileName : string) (retryAttempts : nat)
  : DPOutcome * list (key * SyncEntry) * nat :=
  let targetPath := JsStr.join targetDir fileName in
  let '(duplicatePath, st1) := findDuplicateFile getTime st fs listing item targetDir in
  if truthy_str duplicatePath then
    (DPTrue, JsMap.set st1 (id item) (mkSyncEntry true duplicatePath None now), 0%nat)
  else
    let valid := match size_of targetPath with Some sz => 0 <? sz | None => false end in
    if valid then (DPTrue, JsMap.set st1 (id item) (synced_at targetPath), 0%nat)
    else retry_loop retryAttempts retryAttempts 0 item targetPath st1.

(** [this.isCancelled], [settings.autoOrganize], the [retryAttempts]
    option and [settingsService.generateFolderPath(date, syncDir)] (with
    the date as its time value). *)
Variable isCancelled : bool.
Variable autoOrganize : bool.
Variable retryAttemptsOpt : option nat.
Variable generateFolderPath : option Z -> string -> string.

(** [processItem(item, syncDir, options)] (lines 746-770), the directory
    creation succeeding.  In its [catch], a retryable error calls
    [this.addToRetryQueue(item)], which [PhotosService] does not define:
    that call throws a [TypeError]. *)
Definition processItem (st : list (key * SyncEntry)) (item : MediaObj) (syncDir : string)
  : Result unit * list (key * SyncEntry) :=
  if isCancelled then (Ret tt, st)
  else
    match mediaMetadata item with
    | None => (Throw TypeError, st)
    | Some md =>
        let creationDate := match creationTime md with Some c => getTime c | None => None end in
        let targetDir := if autoOrganize then generateFolderPath creationDate syncDir
                         else syncDir in
        match generateFileName getTime now (Some item) with
        | Throw e => (Throw e, st)
        | Ret fileName =>
            let '(o, st', _) :=
              downloadPhoto st item targetDir fileName (retryAttempts_of retryAttemptsOpt) in
            match o with
            | DPRejected e => if shouldRetry e then (Throw TypeError, st') else (Ret tt, st')
            | _ => (Ret tt, st')
            end
        end
    end.
End DownloadPhoto.

(** A request failure with an HTTP status. *)
Definition http_failure (code : Z) : JsErr :=
  mkJsErr None (Some code) "Request failed".

(* ------------------------------------------------------------------ *)
(** ** The ledgers of [PhotosService] on disk and their reports (part_003,
       lines 542-585, 672-712, 823-844 and 877-904) *)

(** An entry of [this.deletedInGooglePhotos]: [{path, deletedTimestamp}]. *)
Record DeletedEntry := mkDeleted {
  del_path : option string;
  deletedTimestamp : option Z
}.

(** A state file: absent, not parsable into an array of pairs, or the
    array [JSON.stringify(Array.from(map.entries()))] wrote. *)
Inductive StateFile (V : Type) :=
| FileMissing
| FileUnparsable
| FileEntries (l : list (key * V)).
Arguments FileMissing {V}.
Arguments FileUnparsable {V}.
Arguments FileEntries {V} l.

(** [.sync_state.json] and [.deleted_items.json] of one [syncDir]. *)
Record StateFiles := mkStateFiles {
  sync_state_json : StateFile SyncEntry;
  deleted_items_json : StateFile DeletedEntry
}.

(** [new Map(entries)]: [set] for each pair in order. *)
Definition map_of_entries {V} (l : list (key * V)) : list (key * V) :=
  fold_left (fun m kv => JsMap.set m (fst kv) (snd kv)) l [].

(** [saveSyncState(syncDir)], both writes succeeding. *)
Definition saveSyncState (syncState : list (key * SyncEntry))
           (deletedInGooglePhotos : list (key * DeletedEntry)) : StateFiles :=
  mkStateFiles (FileEntries syncState) (FileEntries deletedInGooglePhotos).

(** [loadSyncState(syncDir)]: [this.syncState] and
    [this.deletedInGooglePhotos] afterwards. *)
Definition loadSyncState (files : StateFiles)
  : list (key * SyncEntry) * list (key * DeletedEntry) :=
  match sync_state_json files with
  | FileEntries l =>
      (map_of_entries l,
       match deleted_items_json files with
       | FileEntries d => map_of_entries d
       | _ => []
       end)
  | _ => ([], [])
  end.

(** [Math.max(...values)]: [-Infinity] for no value. *)
Inductive ExtZ := NegInf | Fin (z : Z).

Definition js_max (a : ExtZ) (b : Z) : ExtZ :=
  match a with NegInf => Fin b | Fin x => Fin (Z.max x b) end.

Record SyncStats := mkSyncStats {
  totalSynced : nat;
  totalFailed : nat;
  totalDeleted : nat;
  totalDiscovered : nat;
  lastSyncTimestamp : ExtZ;
  estimatedStorageUsed : Z
}.

(** [getSyncStats()] (lines 823-844); [size_of p] is [fs.statSync(p).size]
    ([None] when it throws, and for an entry without [path]). *)
Definition getSyncStats (size_of : string -> option Z) (syncState : list (key * SyncEntry))
           (deletedInGooglePhotos : list (key * DeletedEntry))
           (discoveryResults : option DiscoveryResults) : SyncStats :=
  let vals := map snd syncState in
  mkSyncStats
    (List.length (filter (fun s => synced s) vals))
    (List.length (filter (fun s => negb (synced s)) vals))
    (List.length deletedInGooglePhotos)
    (match discoveryResults with Some r => totalItems r | None => 0%nat end)
    (fold_left js_max (map timestamp vals) NegInf)
    (fold_left (fun total s =>
                  match path s with
                  | Some p => match size_of p with Some sz => total + sz | None => total end
                  | None => total
                  end) (filter (fun s => synced s) vals) 0).

(** The outcome of [fs.promises.stat(p)]: a size, or an error code. *)
Inductive StatResult := StatOk (size : Z) | StatErr (code : string).

(** [fs.promises.stat] on [item.path]; [undefined] is rejected with
    [ERR_INVALID_ARG_TYPE]. *)
Definition stat_path (stat : string -> StatResult) (p : option string) : StatResult :=
  match p with Some q => stat q | None => StatErr "ERR_INVALID_ARG_TYPE" end.

Record Integrity := mkIntegrity {
  i_verified : nat;
  i_missing : nat;
  i_corrupted : nat;
  i_total : nat
}.

(** The loop of [verifyIntegrity(syncDir)] (lines 877-904). *)
Fixpoint integrity_loop (stat : string -> StatResult) (entries : list (key * SyncEntry))
         (r : Integrity) : Integrity :=
  match entries with
  | [] => r
  | (_, item) :: rest =>
      let r' :=
        match stat_path stat (path item) with
        | StatOk sz =>
            if sz =? 0
            then mkIntegrity (i_verified r) (i_missing r) (S (i_corrupted r)) (i_total r)
            else mkIntegrity (S (i_verified r)) (i_missing r) (i_corrupted r) (i_total r)
        | StatErr code =>
            if String.eqb code "ENOENT"
            then mkIntegrity (i_verified r) (S (i_missing r)) (i_corrupted r) (i_total r)
            else r
        end in
      integrity_loop stat rest r'
  end.

Definition verifyIntegrity (stat : string -> StatResult) (syncState : list (key * SyncEntry))
  : Integrity :=
  integrity_loop stat syncState (mkIntegrity 0 0 0 (List.length syncState)).

(** Whether [stat] fails for an entry with an error other than [ENOENT]. *)
Definition other_stat_error (stat : string -> StatResult) (e : key * SyncEntry) : bool :=
  match stat_path stat (path (snd e)) with
  | StatOk _ => false
  | StatErr code => negb (String.eqb code "ENOENT")
  end.

(** The two ledgers and the files, for the deleted-items operations. *)
Record DeletionState := mkDeletionState {
  ds_syncState : list (key * SyncEntry);
  ds_deleted : list (key * DeletedEntry);
  ds_files : Fs
}.

(** [fs.promises.unlink(p)]: the files afterwards, or its rejection. *)
Definition unlink (fs : Fs) (p : option string) : Result Fs :=
  match p with
  | None => Throw TypeError
  | Some q =>
      if existsb (String.eqb q) fs then Ret (filter (fun f => negb (String.eqb f q)) fs)
      else Throw (Error "ENOENT: no such file or directory")
  end.

(** [permanentlyDeleteItem(itemId)] (lines 681-699). *)
Definition permanentlyDeleteItem (s : DeletionState) (itemId : key)
  : Result bool * DeletionState :=
  match JsMap.get (ds_deleted s) itemId with
  | None => (Throw (Error "Item not found in deleted items list"), s)
  | Some deletedItem =>
      match unlink (ds_files s) (del_path deletedItem) with
      | Throw e => (Throw e, s)
      | Ret fs' =>
          (Ret true, mkDeletionState (JsMap.delete (ds_syncState s) itemId)
                                     (JsMap.delete (ds_deleted s) itemId) fs')
      end
  end.

(** [restoreDeletedItem(itemId)] (lines 701-712); the log line reads
    [path.basename(deletedItem.path)] after the removal, which throws
    when [path] is [undefined]. *)
Definition restoreDeletedItem (s : DeletionState) (itemId : key)
  : Result bool * DeletionState :=
  match JsMap.get (ds_deleted s) itemId with
  | None => (Throw (Error "Item not found in deleted items list"), s)
  | Some deletedItem =>
      let s' := mkDeletionState (ds_syncState s) (JsMap.delete (ds_deleted s) itemId)
                                (ds_files s) in
      match del_path deletedItem with
      | Some _ => (Ret true, s')
      | None => (Throw TypeError, s')
      end
  end.

(* ------------------------------------------------------------------ *)
(** ** Choosing the sync directory ([SyncService.validateSyncDirectory],
       [server/services/sync.service.js] lines 31-66, and the start of
       [startSync], lines 238-250) *)








(* ------------------------------------------------------------------ *)
(** ** The order of the download queue ([sortItemsBySettings], part_003
       lines 1013-1039) *)

(** [new Date(item.mediaMetadata.creationTime).getTime()]; [None] when it
    is [NaN] or when [mediaMetadata] is missing (the access throws). *)
Definition creation_ms (getTime : string -> option Z) (it : MediaObj) : option Z :=
  match mediaMetadata it with
  | Some md => match creationTime md with Some c => getTime c | None => None end
  | None => None
  end.

Definition time_of (getTime : string -> option Z) (it : MediaObj) : Z :=
  match creation_ms getTime it with Some t => t | None => 0 end.

(** Insertion of a later element after every element it does not come
    strictly before. *)
Fixpoint insert_by {A} (before : A -> A -> bool) (x : A) (l : list A) : list A :=
  match l with
  | [] => [x]
  | y :: r => if before x y then x :: y :: r else y :: insert_by before x r
  end.

(** [Array.prototype.sort(cmp)] with [before a b] meaning [cmp(a, b) < 0]:
    the sort is stable, so for a consistent comparator its result is the
    stable sort of the array. *)
Definition stable_sort {A} (before : A -> A -> bool) (l : list A) : list A :=
  fold_left (fun acc x => insert_by before x acc) l [].

(** [[arr[i], arr[j]] = [arr[j], arr[i]]] for [0 <= j <= i < arr.length]
    ([set_nth n x l] is [arr[n] = x]). *)
Definition swap {A} (l : list A) (i j : nat) : list A :=
  match nth_error l i, nth_error l j with
  | Some vi, Some vj => set_nth j vi (set_nth i vj l)
  | _, _ => l
  end.

(** The Fisher-Yates loop, [i] from [length - 1] down to [1]; [pick i] is
    [Math.floor(Math.random() * (i + 1))]. *)
Fixpoint fy_loop {A} (pick : nat -> nat) (i : nat) (l : list A) : list A :=
  match i with
  | O => l
  | S i' => fy_loop pick i' (swap l i (pick i))
  end.

(** [sortItemsBySettings(items)] for [settings.syncOrder].  [None] stands for
    a 'newest' or 'oldest' sort of two or more items one of which has no
    valid creation time: the comparator then throws or returns [NaN], and
    the order is not fixed by the language. *)
Definition sortItemsBySettings (getTime : string -> option Z) (pick : nat -> nat)
           (syncOrder : option string) (items : list MediaObj) : option (list MediaObj) :=
  let dated := (List.length items <=? 1)%nat
               || forallb (fun it => match creation_ms getTime it with
                                     | Some _ => true | None => false end) items in
  let t := time_of getTime in
  if opt_str_eqb syncOrder (Some "newest"%string) then
    if dated then Some (stable_sort (fun a b => t b - t a <? 0) items) else None
  else if opt_str_eqb syncOrder (Some "oldest"%string) then
    if dated then Some (stable_sort (fun a b => t a - t b <? 0) items) else None
  else if opt_str_eqb syncOrder (Some "random"%string) then
    Some (fy_loop pick (List.length items - 1) items)
  else Some items.

(* ------------------------------------------------------------------ *)
(** ** Removing empty directories ([cleanupEmptyDirs], part_003 lines
       987-1011) *)

(** A directory entry: a directory with its entries in [readdir] order, or
    anything else. *)
#[warnings="-register-all"]
Inductive Entry :=
| FileE (name : string)
| DirE (name : string) (children : list Entry).

(** What becomes of one entry when its parent is cleaned: a subdirectory
    is cleaned first ([cleanupDir(fullPath)]) and removed when it is then
    empty; anything else stays. *)
Fixpoint cleanupEntry (e : Entry) : list Entry :=
  match e with
  | FileE n => [FileE n]
  | DirE n cs =>
      match flat_map cleanupEntry cs with
      | [] => []
      | cs' => [DirE n cs']
      end
  end.

(** [cleanupDir(dir)] on the entries of [dir]: what the second [readdir]
    lists, empty exactly when [cleanupDir] returns [true]. *)
Definition cleanupDir (children : list Entry) : list Entry :=
  flat_map cleanupEntry children.

(** The paths of the non-directories at or below an entry. *)
Fixpoint files_of_entry (e : Entry) : list (list string) :=
  match e with
  | FileE n => [[n]]
  | DirE n cs => map (cons n) (flat_map files_of_entry cs)
  end.

Definition files_of (children : list Entry) : list (list string) :=
  flat_map files_of_entry children.

(** Whether no directory at or below an entry is empty. *)
Fixpoint no_empty_entry (e : Entry) : bool :=
  match e with
  | FileE _ => true
  | DirE _ cs => match cs with [] => false | _ => forallb no_empty_entry cs end
  end.

Definition no_empty_dirs (children : list Entry) : bool :=
  forallb no_empty_entry children.

Section EntryInd.
Variable P : Entry -> Prop.
Hypothesis HFile : forall n, P (FileE n).
Hypothesis HDir : forall n cs, Forall P cs -> P (DirE n cs).

(** Induction on entries, with the hypothesis for every child. *)
Fixpoint Entry_ind' (e : Entry) : P e :=
  match e with
  | FileE n => HFile n
  | DirE n cs =>
      HDir n cs ((fix go (l : list Entry) : Forall P l :=
                    match l with
                    | [] => Forall_nil P
                    | c :: r => Forall_cons c (Entry_ind' c) (go r)
                    end) cs)
  end.
End EntryInd.

(* ------------------------------------------------------------------ *)
(** ** The batch loop of [processDownloadQueue] (part_003, lines 503-524)
       and [updateSyncStatus] (lines 798-810) *)

(** [Math.min(settings.batchSize, this.downloadQueue.length)] for an
    integral [settings.batchSize] (after [ToNumber]: an empty string is
    [0]); [None] is [NaN], which [undefined] and non-numeric strings give. *)
Definition batch_count (batchSize : option Z) (len : nat) : option Z :=
  match batchSize with Some b => Some (Z.min b (Z.of_nat len)) | None => None end.

(** [arr.slice(0, k)]: a negative [k] counts from the end, [NaN] is [0]. *)
Definition js_slice0 {A} (l : list A) (k : option Z) : list A :=
  match k with
  | None => []
  | Some k => if k <? 0 then firstn (Z.to_nat (Z.of_nat (List.length l) + k)) l
              else firstn (Z.to_nat k) l
  end.

(** [arr.splice(0, k)] on the array: the delete count is clamped to
    [0 .. arr.length], [NaN] is [0]. *)
Definition js_splice0 {A} (l : list A) (k : option Z) : list A :=
  match k with None => l | Some k => skipn (Z.to_nat k) l end.

(** The [while] loop of [processDownloadQueue] while [this.isCancelled]
    keeps its value, nothing else changes the queue, every batch settles
    and [updateSyncStatus] returns: the batches handed to
    [Promise.all(batch.map(... processItem ...))], in order.  [fuel] bounds
    the iterations; [None] is a run that has not left the loop within it. *)
Fixpoint download_loop (batchSize : option Z) (isCancelled : bool) (fuel : nat)
         (downloadQueue : list MediaObj) : option (list (list MediaObj)) :=
  match fuel with
  | O => None
  | S f =>
      if (0 <? List.length downloadQueue)%nat && negb isCancelled then
        let k := batch_count batchSize (List.length downloadQueue) in
        match download_loop batchSize isCancelled f (js_splice0 downloadQueue k) with
        | Some bs => Some (js_slice0 downloadQueue k :: bs)
        | None => None
        end
      else Some []
  end.

(** The numbers [updateSyncStatus] computes. *)
Inductive JsCount := CUndefined | CNaN | CNum (n : Z).

(** [a - b] for a number [b]. *)
Definition js_minus (a : JsCount) (b : Z) : JsCount :=
  match a with CNum x => CNum (x - b) | _ => CNaN end.

(** [this.discoveryResults.length]: the discovery results are a plain
    object ([items], [photoCount], [videoCount], [totalItems], ...), which
    has no [length] property. *)
Definition results_length (r : DiscoveryResults) : JsCount := CUndefined.

Record SyncStatusReport := mkSyncStatusReport {
  rep_processedItems : JsCount;
  rep_totalItems : JsCount;
  rep_syncedItems : nat;
  rep_deletedInGooglePhotos : nat;
  rep_failedItems : nat;
  rep_activeDownloads : nat
}.

(** [updateSyncStatus()]: the [stats] passed to the WebSocket service;
    reading [.length] of [null] throws. *)
Definition updateSyncStatus (discoveryResults : option DiscoveryResults)
           (downloadQueue : list MediaObj) (syncState : list (key * SyncEntry))
           (deletedInGooglePhotos : list (key * DeletedEntry)) (active : nat)
  : Result SyncStatusReport :=
  match discoveryResults with
  | None => Throw TypeError
  | Some r =>
      let vals := map snd syncState in
      Ret (mkSyncStatusReport
             (js_minus (results_length r) (Z.of_nat (List.length downloadQueue)))
             (results_length r)
             (List.length (filter (fun s => synced s) vals))
             (List.length deletedInGooglePhotos)
             (List.length (filter (fun s => negb (synced s)) vals))
             active)
  end.

(* ================================================================== *)
(** * Theorems *)

Module JsStrTests.
Import JsStr.
Example ext1 : extname "IMG_0001.JPG" = ".JPG"%string. Proof. reflexivity. Qed.
Example ext2 : extname ".bashrc" = ""%string. Proof. reflexivity. Qed.
Example ext3 : extname "a.b.c" = ".c"%string. Proof. reflexivity. Qed.
Example base1 : basename "IMG_0001.JPG" ".JPG" = "IMG_0001"%string. Proof. reflexivity. Qed.
Example base2 : basename "dir/x.png" "" = "x.png"%string. Proof. reflexivity. Qed.
Example num1 : z_to_string 1577836800000 = "1577836800000"%string. Proof. reflexivity. Qed.
Example num2 : z_to_string 0 = "0"%string. Proof. reflexivity. Qed.
Example num3 : z_to_string (-12) = "-12"%string. Proof. reflexivity. Qed.
Example sl1 : slice_last8 "ABCDEFGHIJKL" = "EFGHIJKL"%string. Proof. reflexivity. Qed.
Example sl2 : slice_last8 "ABC" = "ABC"%string. Proof. reflexivity. Qed.
Example sp1 : split_first "."%char (split_pop "_"%char "IMG_1577836800000_EFGHIJKL.JPG")
              = "EFGHIJKL"%string. Proof. reflexivity. Qed.
Example inc1 : includes "IMG_15_x" "_15_" = true. Proof. reflexivity. Qed.
End JsStrTests.

Module FileNameTests.
Local Open Scope string_scope.
Example iso1 : IsoDate.getTime "2020-01-01T00:00:00Z" = Some 1577836800000.
Proof. reflexivity. Qed.
Example iso2 : IsoDate.getTime "2017-06-05T15:46:12Z" = Some 1496677572000.
Proof. reflexivity. Qed.
Example gen1 : generateFileName IsoDate.getTime 42 (Some sample)
               = Ret "IMG_0001_1577836800000_IJKLMNOP.JPG"%string.
Proof. reflexivity. Qed.
Example gen2 : generateFileName IsoDate.getTime 42
                 (Some (mkItem (Some "abc") None (Some "video") None))
               = Ret "abc_42.mp4"%string.
Proof. reflexivity. Qed.
Example gen3 : generateFileName IsoDate.getTime 42 None = Throw TypeError.
Proof. reflexivity. Qed.
End FileNameTests.

(* ------------------------------------------------------------------ *)
(** ** Map lemmas *)

Lemma key_eqb_true (a b : key) : key_eqb a b = true <-> a = b.
Proof.
  destruct a as [x|], b as [y|]; simpl; split; intro H; try discriminate; auto.
  - apply String.eqb_eq in H; now subst.
  - inversion H; subst; apply String.eqb_refl.
Qed.

Lemma key_eqb_refl (a : key) : key_eqb a a = true.
Proof. now apply key_eqb_true. Qed.

Lemma key_eqb_sym (a b : key) : key_eqb a b = key_eqb b a.
Proof.
  destruct (key_eqb a b) eqn:E1, (key_eqb b a) eqn:E2; auto.
  - apply key_eqb_true in E1; subst; now rewrite key_eqb_refl in E2.
  - apply key_eqb_true in E2; subst; now rewrite key_eqb_refl in E1.
Qed.

Lemma get_delete {V} (m : list (key * V)) (k k' : key) :
  JsMap.get (JsMap.delete m k) k' = if key_eqb k' k then None else JsMap.get m k'.
Proof.
  induction m as [|[i v] r IH]; simpl.
  - now destruct (key_eqb k' k).
  - destruct (key_eqb k i) eqn:Eki; simpl.
    + apply key_eqb_true in Eki; subst i.
      rewrite IH. now destruct (key_eqb k' k).
    + rewrite IH. destruct (key_eqb k' k) eqn:Ek'k; auto.
      destruct (key_eqb k' i) eqn:Ek'i; auto.
      apply key_eqb_true in Ek'k, Ek'i; subst.
      now rewrite key_eqb_refl in Eki.
Qed.

(* ------------------------------------------------------------------ *)
(** ** Cache cleanup lemmas *)

Lemma cleanup_loop_get now maxAge entries live cnt k :
  JsMap.get (fst (cleanup_loop now maxAge entries live cnt)) k =
  if expired_key now maxAge entries k then None else JsMap.get live k.
Proof.
  revert live cnt.
  induction entries as [|[i d] r IH]; intros live cnt; simpl; auto.
  unfold expired_key in *; simpl.
  destruct (expired now maxAge d) eqn:Ed.
  - rewrite IH, get_delete.
    rewrite andb_true_r.
    destruct (existsb _ r); destruct (key_eqb k i); reflexivity.
  - rewrite IH. now rewrite andb_false_r.
Qed.

Lemma cleanup_loop_count now maxAge entries live cnt :
  snd (cleanup_loop now maxAge entries live cnt) =
  (cnt + count_occ Bool.bool_dec (map (fun kv => expired now maxAge (snd kv)) entries) true)%nat.
Proof.
  revert live cnt.
  induction entries as [|[i d] r IH]; intros live cnt; simpl; [lia|].
  destruct (expired now maxAge d); rewrite IH; simpl; lia.
Qed.

Lemma expired_key_in now maxAge entries k :
  expired_key now maxAge entries k = true -> In k (map fst entries).
Proof.
  induction entries as [|[i d] r IH]; simpl; [discriminate|].
  unfold expired_key in *; simpl.
  intro H. apply orb_true_iff in H as [H|H].
  - apply andb_true_iff in H as [H _]. apply key_eqb_true in H. now left.
  - right; auto.
Qed.

Lemma expired_key_nodup now maxAge entries k :
  NoDup (map fst entries) ->
  expired_key now maxAge entries k =
  match JsMap.get entries k with Some d => expired now maxAge d | None => false end.
Proof.
  induction entries as [|[i d] r IH]; simpl; intros Hnd; auto.
  inversion Hnd as [|? ? Hni Hnd']; subst.
  unfold expired_key in *; simpl.
  destruct (key_eqb k i) eqn:Eki; simpl.
  - apply key_eqb_true in Eki; subst i.
    destruct (existsb _ r) eqn:Er.
    + exfalso. apply Hni. now apply (expired_key_in now maxAge r k).
    + now rewrite orb_false_r.
  - auto.
Qed.

Lemma count_occ_pos_existsb (l : list (key * CacheEntry)) (f : CacheEntry -> bool) :
  existsb (fun kv => f (snd kv)) l = true ->
  (0 < count_occ Bool.bool_dec (map (fun kv => f (snd kv)) l) true)%nat.
Proof.
  induction l as [|[i d] r IH]; simpl; [discriminate|].
  destruct (f d); simpl; [lia|auto].
Qed.

(* ------------------------------------------------------------------ *)
(** ** C9: the 30-day pruning of the sync cache *)

Lemma cleanup_get now (c : SyncCache) k :
  NoDup (map fst (syncCache c)) ->
  JsMap.get (syncCache (cleanup now thirty_days c)) k =
  match JsMap.get (syncCache c) k with
  | Some d => if expired now thirty_days d then None else Some d
  | None => None
  end.
Proof.
  intros Hnd. unfold cleanup.
  pose proof (cleanup_loop_get now thirty_days (syncCache c) (syncCache c) 0 k) as Hg.
  destruct (cleanup_loop now thirty_days (syncCache c) (syncCache c) 0) as [live cnt].
  simpl in Hg.
  assert (Hl : JsMap.get live k =
               match JsMap.get (syncCache c) k with
               | Some d => if expired now thirty_days d then None else Some d
               | None => None end).
  { rewrite Hg, expired_key_nodup by exact Hnd.
    destruct (JsMap.get (syncCache c) k); auto. }
  destruct (0 <? cnt)%nat; [unfold saveCache; simpl|]; exact Hl.
Qed.

(** C9 (amended).  When [cleanup] runs, an entry whose [lastSync] lies more
    than 30 days before [now] is removed, every other entry is kept
    unchanged, and if anything was removed the pruned map is written to the
    cache file.  [startSync] of the server tree invokes [cleanup] exactly
    when it gets to its download loop: not when there are no discovered
    items (error) and not when every item is already synced and verified. *)
Theorem sync_cache_cleanup_30_days (getTime : string -> option Z) (now : Z)
    (transfer : MediaObj -> bool) (c : SyncCache)
    (Hnd : NoDup (map fst (syncCache c))) :
  (forall k,
     JsMap.get (syncCache (cleanup now thirty_days c)) k =
     match JsMap.get (syncCache c) k with
     | Some d =>
         match lastSync d with
         | Some t => if thirty_days <? now - t then None else Some d
         | None => Some d
         end
     | None => None
     end) /\
  (existsb (fun kv => expired now thirty_days (snd kv)) (syncCache c) = true ->
   cacheFile (cleanup now thirty_days c) = Some (syncCache (cleanup now thirty_days c)) /\
   isDirty (cleanup now thirty_days c) = false) /\
  (forall syncDir cancelled items existing d,
     cleanupInvoked (startSync getTime now transfer syncDir cancelled items existing d) = true <->
     items <> [] /\
     exists it, In it items /\
       needs_sync (mkDisk (verify_loop getTime now cancelled items existing (cache d)) (files d)) it
       = true).
Proof.
  split; [|split].
  - intros k. rewrite cleanup_get by exact Hnd.
    destruct (JsMap.get (syncCache c) k) as [d|]; auto.
    unfold expired. destruct (lastSync d); auto.
  - intros Hex. unfold cleanup.
    pose proof (cleanup_loop_count now thirty_days (syncCache c) (syncCache c) 0) as Hc.
    destruct (cleanup_loop now thirty_days (syncCache c) (syncCache c) 0) as [live cnt].
    simpl in Hc. apply count_occ_pos_existsb in Hex.
    assert (Hpos : (0 <? cnt)%nat = true) by (apply Nat.ltb_lt; lia).
    rewrite Hpos. unfold saveCache. simpl. auto.
  - intros syncDir cancelled items existing d.
    unfold startSync.
    set (d1 := mkDisk (verify_loop getTime now cancelled items existing (cache d)) (files d)).
    destruct items as [|it0 rest].
    + simpl. split; [discriminate|]. intros [H _]; now elim H.
    + destruct (filter (needs_sync d1) (it0 :: rest)) as [|x xs] eqn:Hf.
      * simpl. split; [discriminate|].
        intros [_ [it [Hin Hn]]].
        assert (In it (filter (needs_sync d1) (it0 :: rest))) by (apply filter_In; auto).
        rewrite Hf in H. inversion H.
      * destruct (sync_loop _ _ _ _ _ _ _ _) as [d2 n]. simpl.
        split; [|reflexivity]. intros _. split; [discriminate|].
        assert (Hx : In x (filter (needs_sync d1) (it0 :: rest))) by (rewrite Hf; now left).
        apply filter_In in Hx. exists x. exact Hx.
Qed.

Lemma sync_cache_cleanup_30_days_witness :
  NoDup (map fst (syncCache (mkSyncCache [(Some "A"%string, mkCache None None true (Some 0))] false None)))
  /\ JsMap.get (syncCache (cleanup (thirty_days + 1) thirty_days
        (mkSyncCache [(Some "A"%string, mkCache None None true (Some 0))] false None)))
        (Some "A"%string) = None.
Proof.
  split.
  - simpl. constructor; [intros []|constructor].
  - pose proof (proj1 (sync_cache_cleanup_30_days IsoDate.getTime (thirty_days + 1)
                   (fun _ => true)
                   (mkSyncCache [(Some "A"%string, mkCache None None true (Some 0))] false None)
                   ltac:(simpl; constructor; [intros []|constructor])) (Some "A"%string)) as H.
    rewrite H. reflexivity.
Defined.

(** C9, counterexample: a run in which every discovered item is already
    synced and verified ends [completed] without calling [cleanup], so the
    40-day-old entry stays. *)
Lemma sync_cache_cleanup_not_every_run :
  let o := startSync IsoDate.getTime c9_now (fun _ => true) "/photos" false [c9_item] [] c9_disk in
  run_status o = StCompleted /\ cleanupInvoked o = false /\
  expired c9_now thirty_days
    (mkCache (Some "/photos/old.jpg"%string) None true (Some (c9_now - 40 * 24 * 60 * 60 * 1000))) = true /\
  JsMap.get (syncCache (cache (final_disk o))) (Some "OLD"%string) <> None.
Proof. vm_compute. repeat split; discriminate. Qed.

(* ------------------------------------------------------------------ *)
(** ** C1: re-verification of synced items *)

Lemma downloadItem_skipped getTime now transfer syncDir d item :
  skipped (fst (downloadItem getTime now transfer syncDir d item)) = already_synced d item.
Proof.
  unfold downloadItem.
  destruct (already_synced d item); simpl; auto.
  destruct (generateFileName getTime now (Some item)); simpl; auto.
  destruct (transfer item); reflexivity.
Qed.

(** C1 (amended).  [downloadItem] skips an item as already synced exactly
    when its cache entry exists and the entry's [localPath] exists on disk.
    [isItemSynced] only tests whether a cache entry exists.  When
    [findDuplicateFile] finds a synced ledger entry whose recorded file has
    vanished, it deletes the whole entry, leaves every other entry as it
    was, and returns what the scan of the directory listing finds. *)
Theorem ledger_synced_check_and_stale_entry (getTime : string -> option Z) (now : Z)
    (transfer : MediaObj -> bool) (syncDir : string) (d : Disk) (item : MediaObj)
    (st : list (key * SyncEntry)) (fs : Fs) (listing : option (list string)) (e : SyncEntry)
    (He : JsMap.get st (id item) = Some e) (Hs : synced e = true)
    (Hgone : existsSync fs (path e) = false) :
  (skipped (fst (downloadItem getTime now transfer syncDir d item)) = true <->
   exists ci, getItem (cache d) (id item) = Some ci /\ existsSync (files d) (localPath ci) = true)
  /\
  (forall (c : SyncCache) (k : key),
     isItemSynced c k = true <-> exists ci, getItem c k = Some ci)
  /\
  (forall k, JsMap.get (snd (findDuplicateFile getTime st fs listing item syncDir)) k =
             if key_eqb k (id item) then None else JsMap.get st k)
  /\
  fst (findDuplicateFile getTime st fs listing item syncDir) =
    match mediaMetadata item with
    | None => None
    | Some md =>
        match listing with
        | None => None
        | Some files =>
            match potential_matches ("_" ++ timestamp_str getTime md ++ "_")%string
                    (filename item) files with
            | None => None
            | Some ms => match first_match syncDir (id item) ms with
                         | Some r => r
                         | None => None
                         end
            end
        end
    end.
Proof.
  split; [|split; [|split]].
  - rewrite downloadItem_skipped. unfold already_synced.
    destruct (getItem (cache d) (id item)) as [ci|].
    + split; [intros H; now exists ci|]. intros [ci' [Hc Hx]]. now inversion Hc; subst.
    + split; [discriminate|]. intros [ci' [Hc _]]. discriminate.
  - intros c k. unfold isItemSynced, getItem.
    destruct (JsMap.get (syncCache c) k) as [ci|].
    + split; [intros _; now exists ci|reflexivity].
    + split; [discriminate|]. intros [ci Hc]. discriminate.
  - intros k. unfold findDuplicateFile. rewrite He, Hs, Hgone.
    assert (Hrest : forall o : option string * list (key * SyncEntry),
               snd o = JsMap.delete st (id item) ->
               JsMap.get (snd o) k = if key_eqb k (id item) then None else JsMap.get st k).
    { intros o Ho. rewrite Ho. apply get_delete. }
    destruct (mediaMetadata item) as [md|]; [|now apply Hrest].
    destruct listing as [files0|]; [|now apply Hrest].
    destruct (potential_matches _ _ _) as [ms|]; [|now apply Hrest].
    destruct (first_match _ _ _) as [r|]; now apply Hrest.
  - unfold findDuplicateFile. rewrite He, Hs, Hgone.
    destruct (mediaMetadata item) as [md|]; [|reflexivity].
    destruct listing as [files0|]; [|reflexivity].
    destruct (potential_matches _ _ _) as [ms|]; [|reflexivity].
    destruct (first_match _ _ _) as [r|]; reflexivity.
Qed.

Lemma ledger_synced_check_and_stale_entry_witness :
  JsMap.get [(Some "A"%string, mkSyncEntry true (Some "/p/a.jpg"%string) None 0)] (Some "A"%string)
    = Some (mkSyncEntry true (Some "/p/a.jpg"%string) None 0) /\
  JsMap.get (snd (findDuplicateFile IsoDate.getTime
                    [(Some "A"%string, mkSyncEntry true (Some "/p/a.jpg"%string) None 0)] []
                    (Some []) (mkItem (Some "A"%string) None None None) "/p"))
            (Some "A"%string) = None.
Proof.
  split; [reflexivity|].
  destruct (ledger_synced_check_and_stale_entry IsoDate.getTime 0 (fun _ => true) "/p"
              (mkDisk (mkSyncCache [] false None) []) (mkItem (Some "A"%string) None None None)
              [(Some "A"%string, mkSyncEntry true (Some "/p/a.jpg"%string) None 0)] [] (Some [])
              (mkSyncEntry true (Some "/p/a.jpg"%string) None 0)
              eq_refl eq_refl eq_refl) as [_ [_ [H _]]].
  rewrite H. reflexivity.
Defined.

(** The claim fails at a concrete ledger: [isItemSynced] answers [true] for
    an entry whose file is gone, and [findDuplicateFile] drops the whole
    stale entry instead of only clearing its path. *)
Lemma ledger_synced_check_counterexample :
  let stale := mkCache (Some "/photos/a.jpg"%string) (Some "a.jpg"%string) true (Some 0) in
  isItemSynced (mkSyncCache [(Some "A"%string, stale)] false None) (Some "A"%string) = true /\
  existsSync [] (localPath stale) = false /\
  JsMap.get (snd (findDuplicateFile IsoDate.getTime
                    [(Some "A"%string, mkSyncEntry true (Some "/photos/a.jpg"%string) None 0)]
                    [] (Some []) (mkItem (Some "A"%string) (Some "a.jpg"%string) None
                        (Some (mkMeta (Some "2020-01-01T00:00:00Z"%string) true false None None)))
                    "/photos"))
            (Some "A"%string) = None.
Proof. vm_compute. repeat split. Qed.

(* ------------------------------------------------------------------ *)
(** ** C10: totality of [generateFileName] *)

Lemma generateFileName_object_total getTime now (it : MediaObj) :
  exists s, generateFileName getTime now (Some it) = Ret s.
Proof.
  unfold generateFileName.
  destruct (generateFileName_try getTime now (Some it)) as [s|e].
  - now exists s.
  - simpl. eexists; reflexivity.
Qed.

Lemma generateFileName_format getTime now (it : MediaObj) (md : MediaMetadata) (i ct : string) :
  id it = Some i -> mediaMetadata it = Some md -> creationTime md = Some ct -> ct <> EmptyString ->
  generateFileName getTime now (Some it) =
  let fname := match or_str (filename it) (Some EmptyString) with Some f => f | None => EmptyString end in
  let ext := JsStr.extname fname in
  let base := match or_str (filename it) (Some i) with Some b => b | None => i end in
  Ret (JsStr.basename base ext ++ "_" ++
       JsStr.z_to_string (match getTime ct with Some t => t | None => now end) ++ "_" ++
       JsStr.slice_last8 i ++ ext)%string.
Proof.
  intros Hid Hmd Hct Hne.
  destruct it as [i0 fn mt md0]; simpl in *; subst.
  assert (Ht : truthy_str (Some ct) = true).
  { unfold truthy_str. destruct ct; [congruence|reflexivity]. }
  unfold generateFileName, generateFileName_try. cbn - [truthy_str].
  rewrite Hct, Ht. cbn - [truthy_str].
  unfold or_str. destruct (truthy_str fn) eqn:Efn; [destruct fn|]; try reflexivity.
  discriminate.
Qed.

(** C10 (code bug).  [generateFileName] returns a name for every item
    object, but on a [null] or [undefined] item -- which its guard
    [!item] anticipates -- the [catch] block itself reads [item.mediaType]
    and the [TypeError] escapes to the caller. *)
Theorem generateFileName_null_item_throws (getTime : string -> option Z) (now : Z) :
  generateFileName getTime now None = Throw TypeError /\
  (forall it, exists s, generateFileName getTime now (Some it) = Ret s).
Proof.
  split; [reflexivity|]. intros it. apply generateFileName_object_total.
Qed.

(* ------------------------------------------------------------------ *)
(** ** C2: pagination of the discovery loop *)

Lemma xs_length k : String.length (xs k) = k.
Proof. induction k; simpl; auto. Qed.

Lemma catalog_api_tok pages k :
  catalog_api pages (tok_of k) =
  mkResp (Some (nth k pages [])) (if (S k <? List.length pages)%nat then tok_of (S k) else None).
Proof.
  unfold catalog_api. destruct k; simpl; auto.
  now rewrite xs_length.
Qed.

Lemma truthy_tok_S k : truthy_str (tok_of (S k)) = true.
Proof. reflexivity. Qed.

Lemma skipn_nth_cons {A} (l : list A) k d :
  (k < List.length l)%nat -> skipn k l = nth k l d :: skipn (S k) l.
Proof.
  revert l; induction k; intros [|x r] H; simpl in *; try lia; auto.
  apply IHk; lia.
Qed.

Lemma firstn_min_length {A} (l : list A) m :
  firstn (Nat.min m (List.length l)) l = firstn m l.
Proof.
  revert m; induction l as [|x r IH]; intros [|m]; simpl; auto.
  f_equal. apply IH.
Qed.

Lemma discover_loop_catalog pages m :
  forall f k st,
  (k < List.length pages)%nat -> nextPageToken st = tok_of k ->
  (pageCount st + f = m)%nat -> (1 <= f)%nat ->
  let st' := discover_loop false (catalog_api pages) m f st in
  acc_items st' = acc_items st ++ List.concat (firstn (Nat.min f (List.length pages - k)) (skipn k pages)) /\
  pageCount st' = (pageCount st + Nat.min f (List.length pages - k))%nat /\
  nextPageToken st' =
    (if (k + Nat.min f (List.length pages - k) <? List.length pages)%nat
     then tok_of (k + Nat.min f (List.length pages - k)) else None).
Proof.
  induction f as [|f IH]; intros k st Hk Htok Hpc Hf; [lia|].
  cbn [discover_loop]. rewrite Htok, catalog_api_tok. cbn [resp_mediaItems resp_nextPageToken].
  destruct (count_media _ _ _) as [p v].
  rewrite (skipn_nth_cons pages k [] Hk).
  destruct (m <=? S (pageCount st))%nat eqn:Em.
  - apply Nat.leb_le in Em. assert (f = 0)%nat by lia. subst f.
    replace (Nat.min 1 (List.length pages - k)) with 1%nat by lia.
    simpl. rewrite app_nil_r. repeat split; auto; try lia.
    replace (k + 1)%nat with (S k) by lia. reflexivity.
  - apply Nat.leb_gt in Em.
    destruct (S k <? List.length pages)%nat eqn:Ek.
    + apply Nat.ltb_lt in Ek.
      cbn [nextPageToken]. rewrite truthy_tok_S.
      destruct (IH (S k) (mkLoop (acc_items st ++ nth k pages []) p v (tok_of (S k))
                                  (S (pageCount st))))
        as [H1 [H2 H3]]; [lia | reflexivity | simpl; lia | lia |].
      cbn [acc_items pageCount] in H1, H2.
      replace (Nat.min (S f) (List.length pages - k))
        with (S (Nat.min f (List.length pages - S k))) by lia.
      simpl firstn. simpl List.concat.
      rewrite H1, H2, H3. rewrite app_assoc.
      replace (S k + Nat.min f (List.length pages - S k))%nat
        with (k + S (Nat.min f (List.length pages - S k)))%nat by lia.
      repeat split; auto; lia.
    + apply Nat.ltb_ge in Ek. cbn [nextPageToken truthy_str].
      replace (Nat.min (S f) (List.length pages - k)) with 1%nat by lia.
      cbn [firstn List.concat acc_items pageCount nextPageToken]. rewrite app_nil_r.
      replace (k + 1 <? List.length pages)%nat with false by (symmetry; apply Nat.ltb_ge; lia).
      repeat split; auto; lia.
Qed.

(** C2 (code bug).  On a catalog of [P >= 1] pages, a discovery call with
    page limit [m >= 1] returns exactly the items of the first [min m P]
    pages and scans [min m P] pages, but the response's [hasMore] and
    [nextPageToken] are always [undefined]: [getPhotos] builds neither. *)
Theorem discover_pagination_without_hasMore (pages : list (list MediaObj)) (m : nat)
    (Hp : (1 <= List.length pages)%nat) (Hm : (1 <= m)%nat) :
  let o := mkOpts (Some m) None false None None true in
  let r := route_discover false (catalog_api pages) None o in
  arr_items (fst (getPhotos false (catalog_api pages) None o)) = List.concat (firstn m pages) /\
  d_totalItems r = List.length (List.concat (firstn m pages)) /\
  d_pagesScanned r = Nat.min m (List.length pages) /\
  d_hasMore r = None /\
  d_nextPageToken r = None.
Proof.
  pose proof (discover_loop_catalog pages m m 0 (mkLoop [] 0 0 None 0)) as HL.
  cbv zeta in HL. destruct HL as [H1 [H2 _]]; [lia | reflexivity | simpl; lia | lia |].
  cbn [acc_items pageCount skipn] in H1, H2.
  rewrite Nat.sub_0_r in H1, H2. rewrite firstn_min_length in H1.
  assert (Hmax : maxPages_of (mkOpts (Some m) None false None None true) = m)
    by (destruct m; [lia | reflexivity]).
  cbv zeta. unfold route_discover, getPhotos. cbn [forceFreshDiscovery pageToken].
  rewrite Hmax. replace (or_str None None) with (@None string) by reflexivity.
  remember (discover_loop false (catalog_api pages) m m (mkLoop [] 0 0 None 0)) as st eqn:Est.
  cbn. rewrite H1, H2. repeat split; auto.
Qed.

Lemma discover_pagination_without_hasMore_witness :
  (1 <= List.length [[page_item "a"]; [page_item "b"]])%nat /\ (1 <= 1)%nat /\
  d_hasMore (route_discover false (catalog_api [[page_item "a"]; [page_item "b"]]) None
               (mkOpts (Some 1%nat) None false None None true)) = None.
Proof.
  split; [simpl; lia|split; [lia|]].
  apply (discover_pagination_without_hasMore [[page_item "a"]; [page_item "b"]] 1);
    simpl; lia.
Defined.

(* ------------------------------------------------------------------ *)
(** ** C7: date filtering of discovery *)

(** C7 (code bug).  [getPhotos] of part_003 reads no date option: its
    result is the same with or without a date range, so an item created
    before [startDate] is returned, whereas the sibling implementation's
    post-pass drops it. *)
Theorem getPhotos_ignores_date_range (isCancelled : bool)
    (api : option string -> ListResponse) (cached : option DiscoveryResults)
    (o : DiscoveryOptions) :
  getPhotos isCancelled api cached o =
  getPhotos isCancelled api cached
    (mkOpts (discoveryLimit o) (pageToken o) false None None (forceFreshDiscovery o)) /\
  (let item := mkItem (Some "AF1QipOLD"%string) (Some "old.jpg"%string) None
                 (Some (mkMeta (Some "2019-06-01T00:00:00Z"%string) true false None None)) in
   let o' := mkOpts (Some 5%nat) None true (Some "2020-01-01T00:00:00Z"%string)
                    (Some "2020-12-31T23:59:59Z"%string) true in
   arr_items (fst (getPhotos false (catalog_api [[item]]) None o')) = [item] /\
   sibling_date_filter IsoDate.getTime o' [item] = []).
Proof.
  split.
  - destruct o; reflexivity.
  - vm_compute. split; reflexivity.
Qed.

(* ------------------------------------------------------------------ *)
(** ** C5: the 429 retry of the rate limiter *)

Lemma prepare_calls s : calls (prepare s) = calls s.
Proof.
  unfold prepare.
  destruct (60000 <=? clock s - lastRequestTime s);
  destruct (RATE_LIMIT <=? _); reflexivity.
Qed.

(** C5 (corrected).  When the first invocation of [requestFn] is rejected
    with status 429, the limiter sleeps [retry_after_seconds h * 1000] ms
    ([parseInt] of the header when it is a nonzero number, otherwise 60 s),
    resets the counter to 0, invokes [requestFn] exactly once more (one
    timer delay later) and returns that second reply unchanged, whatever it
    is. *)
Theorem rateLimitedRequest_429_retry (respond : nat -> Reply) (s : Limiter) (e : HttpError)
    (He : respond (calls s) = Fail e) (H429 : status e = Some 429) :
  let s2 := prepare s in
  let d := retry_after_seconds (retryAfterHeader e) * 1000 in
  rateLimitedRequest respond s =
    (respond (S (calls s)),
     mkLimiter 0 (lastRequestTime s2) (clock s2 + timer_delay d) (S (S (calls s)))
               (issued s2 ++ [(lastRequestTime s2, clock s2);
                              (lastRequestTime s2, clock s2 + timer_delay d)])
               (sleeps s2 ++ [d])).
Proof.
  intros s2 d. subst s2 d.
  assert (Hc := prepare_calls s). unfold rateLimitedRequest.
  destruct (prepare s) as [r0 l0 c0 n0 iss0 sl0]. cbn in Hc |- *. subst n0.
  rewrite He. cbn. rewrite H429. cbn.
  unfold call, set_requests, sleep. cbn. rewrite <- app_assoc. reflexivity.
Qed.

Lemma rateLimitedRequest_429_retry_witness :
  reply_429 (Some "5"%string) (calls (mkLimiter 0 0 0 0 [] [])) =
    Fail (mkHttpError (Some 429) (Some "5"%string)) /\
  fst (rateLimitedRequest (reply_429 (Some "5"%string)) (mkLimiter 0 0 0 0 [] [])) = Ok 1.
Proof.
  split; [reflexivity|].
  rewrite (rateLimitedRequest_429_retry (reply_429 (Some "5"%string)) (mkLimiter 0 0 0 0 [] [])
             (mkHttpError (Some 429) (Some "5"%string))); reflexivity.
Defined.

(** C5, counterexample: a [Retry-After: 0] header, and one in the HTTP-date
    form, both make the limiter wait 60 s, not the provider's duration. *)
Lemma rateLimitedRequest_retry_after_counterexample :
  sleeps (snd (rateLimitedRequest (reply_429 (Some "0"%string)) (mkLimiter 0 0 0 0 [] []))) =
    [60000] /\
  sleeps (snd (rateLimitedRequest (reply_429 (Some "Wed, 21 Oct 2015 07:28:00 GMT"%string))
                                  (mkLimiter 0 0 0 0 [] []))) = [60000].
Proof. vm_compute. split; reflexivity. Qed.

(* ------------------------------------------------------------------ *)
(** ** C6: the request ceiling of the rate limiter *)

Lemma count_window_app w l x :
  count_window w (l ++ [x]) = (count_window w l + if Z.eqb (fst x) w then 1 else 0)%nat.
Proof.
  unfold count_window. rewrite filter_app, length_app. simpl.
  destruct (fst x =? w); reflexivity.
Qed.

Lemma count_window_later w l :
  (forall p, In p l -> fst p < w) -> count_window w l = 0%nat.
Proof.
  unfold count_window. induction l as [|x r IH]; intros H; simpl; auto.
  destruct (fst x =? w) eqn:E.
  - apply Z.eqb_eq in E. specialize (H x (or_introl eq_refl)). lia.
  - apply IH. intros p Hp. apply H. now right.
Qed.

Lemma inv_restart req last clk l t c :
  inv_fields req last clk l -> last < t -> t <= c -> inv_fields 0 t c l.
Proof.
  intros (Hr & Hlc & Hl & Hcur & Hall) Ht Htc.
  unfold inv_fields, RATE_LIMIT in *.
  refine (conj _ (conj _ (conj _ (conj _ _)))); try lia.
  - intros q Hq. destruct (Hl q Hq). split; [lia | auto].
  - rewrite count_window_later; [lia|]. intros q Hq. destruct (Hl q Hq). lia.
  - apply Hall.
Qed.

Lemma advance_inv g s : 0 <= g -> limiter_inv s -> limiter_inv (advance g s).
Proof.
  intros Hg (Hr & Hlc & Hl & Hcur & Hall). unfold limiter_inv, inv_fields; simpl.
  refine (conj Hr (conj _ (conj Hl (conj Hcur Hall)))). lia.
Qed.

Lemma timer_delay_id d : 1 <= d <= 2147483647 -> timer_delay d = d.
Proof.
  intros H. unfold timer_delay.
  destruct (d <? 1) eqn:E1; [apply Z.ltb_lt in E1; lia|].
  destruct (2147483647 <? d) eqn:E2; [apply Z.ltb_lt in E2; lia|]. reflexivity.
Qed.

Lemma prepare_inv s :
  limiter_inv s ->
  limiter_inv (prepare s) /\ requestsThisMinute (prepare s) < RATE_LIMIT /\
  clock (prepare s) - lastRequestTime (prepare s) < 60000 /\
  issued (prepare s) = issued s /\ calls (prepare s) = calls s.
Proof.
  intros Hi. pose proof Hi as (Hr & Hlc & Hl & Hcur & Hall).
  unfold prepare, RATE_LIMIT in *.
  destruct (60000 <=? clock s - lastRequestTime s) eqn:E1.
  - apply Z.leb_le in E1. cbn.
    split; [unfold limiter_inv; cbn; eapply inv_restart; [exact Hi | lia | lia]|].
    split; [lia|]. split; [lia|]. split; reflexivity.
  - apply Z.leb_gt in E1.
    destruct (250 <=? requestsThisMinute s) eqn:E2.
    + apply Z.leb_le in E2. unfold sleep.
      rewrite timer_delay_id by lia. cbn [set_window clock lastRequestTime requestsThisMinute].
      split; [unfold limiter_inv; cbn [set_window clock lastRequestTime requestsThisMinute issued];
              eapply inv_restart; [exact Hi | lia | lia]|].
      split; [lia|]. split; [lia|]. split; reflexivity.
    + apply Z.leb_gt in E2.
      split; [exact Hi|]. split; [lia|]. split; [lia|]. split; reflexivity.
Qed.

Lemma rateLimitedRequest_no_retry respond s :
  no_429 respond ->
  snd (rateLimitedRequest respond s) =
  mkLimiter (requestsThisMinute (prepare s) + 1) (lastRequestTime (prepare s))
            (clock (prepare s)) (S (calls (prepare s)))
            (issued (prepare s) ++ [(lastRequestTime (prepare s), clock (prepare s))])
            (sleeps (prepare s)).
Proof.
  intros Hno. unfold rateLimitedRequest.
  destruct (prepare s) as [r0 l0 c0 n0 iss0 sl0]. cbn.
  destruct (respond n0) as [k|e] eqn:Er; [reflexivity|].
  destruct (status e) as [c|] eqn:Es; [|reflexivity].
  destruct (c =? 429) eqn:Ec; [|reflexivity].
  apply Z.eqb_eq in Ec. subst c. exfalso. exact (Hno n0 e Er Es).
Qed.

Lemma step_inv respond s :
  no_429 respond -> limiter_inv s -> limiter_inv (snd (rateLimitedRequest respond s)).
Proof.
  intros Hno Hi. rewrite rateLimitedRequest_no_retry by exact Hno.
  destruct (prepare_inv s Hi) as [Hp [Hlt [Hwin _]]].
  destruct (prepare s) as [r0 l0 c0 n0 iss0 sl0].
  unfold limiter_inv, inv_fields, RATE_LIMIT in *;
    cbn [requestsThisMinute lastRequestTime clock issued calls sleeps] in *.
  destruct Hp as (Hr & Hlc & Hl & Hcur & Hall).
  refine (conj _ (conj _ (conj _ (conj _ _)))); [lia | lia | | |].
  - intros q Hin. apply in_app_or in Hin as [Hin|[<-|[]]]; [apply Hl; auto|cbn; lia].
  - rewrite count_window_app. cbn. rewrite Z.eqb_refl. lia.
  - intros w. rewrite count_window_app. cbn.
    destruct (l0 =? w) eqn:E; [apply Z.eqb_eq in E; subst w; lia|].
    specialize (Hall w). lia.
Qed.

Lemma run_requests_inv respond gaps s :
  no_429 respond -> Forall (fun g => 0 <= g) gaps -> limiter_inv s ->
  limiter_inv (run_requests respond gaps s).
Proof.
  intros Hno Hg. revert s. induction Hg as [|g r Hg0 Hr IH]; intros s Hi; simpl; auto.
  apply IH. apply step_inv; auto. apply advance_inv; auto.
Qed.

(** C6 (corrected).  For callers that await each request before the next
    (never answered with 429), starting from a fresh log: no fixed window
    [[lastRequestTime, lastRequestTime + 60 s)] ever has more than 250
    requests issued in it, each request is issued inside its window, and a
    call arriving with 250 requests counted in a window that has not
    ended is issued exactly when that window ends. *)
Theorem rate_limiter_fixed_window (respond : nat -> Reply) (gaps : list Z) (s : Limiter)
    (Hno : no_429 respond) (Hgaps : Forall (fun g => 0 <= g) gaps)
    (Hreq : 0 <= requestsThisMinute s <= RATE_LIMIT)
    (Hclk : lastRequestTime s <= clock s) (Hlog : issued s = []) :
  (let s' := run_requests respond gaps s in
   (forall w, (count_window w (issued s') <= 250)%nat) /\
   (forall w t, In (w, t) (issued s') -> w <= t < w + 60000)) /\
  (forall s0, requestsThisMinute s0 = RATE_LIMIT ->
     lastRequestTime s0 <= clock s0 < lastRequestTime s0 + 60000 ->
     issued (snd (rateLimitedRequest respond s0)) =
       issued s0 ++ [(lastRequestTime s0 + 60000, lastRequestTime s0 + 60000)]).
Proof.
  split.
  - assert (Hi : limiter_inv s).
    { unfold limiter_inv, inv_fields. rewrite Hlog.
      refine (conj Hreq (conj Hclk (conj _ (conj _ _)))); [intros q [] | cbn; lia | intros w; cbn; lia]. }
    destruct (run_requests_inv respond gaps s Hno Hgaps Hi) as (_ & _ & Hl & _ & Hall).
    cbv zeta. split; auto.
    intros w t Hin. apply (Hl (w, t) Hin).
  - intros s0 Hr Hc. rewrite rateLimitedRequest_no_retry by exact Hno. cbn [issued].
    unfold prepare.
    destruct (60000 <=? clock s0 - lastRequestTime s0) eqn:E1;
      [apply Z.leb_le in E1; lia|].
    cbv beta iota zeta. rewrite Hr, Z.leb_refl. unfold sleep.
    rewrite timer_delay_id by lia.
    cbn [set_window issued lastRequestTime clock].
    do 3 f_equal; lia.
Qed.

Lemma rate_limiter_fixed_window_witness :
  no_429 Ok /\ Forall (fun g => 0 <= g) [0; 0] /\
  (forall w, (count_window w (issued (run_requests Ok [0%Z; 0%Z] (mkLimiter 0 0 0 0 [] []))) <= 250)%nat).
Proof.
  split; [intros n e H; discriminate|]. split; [repeat constructor; lia|].
  refine (proj1 (proj1 (rate_limiter_fixed_window Ok [0; 0] (mkLimiter 0 0 0 0 [] []) _ _ _ _ _)));
    [intros n e H; discriminate | repeat constructor; lia | unfold RATE_LIMIT; cbn; lia
    | cbn; lia | reflexivity].
Defined.

Lemma rate_limiter_rolling_minute_counterexample :
  count_between 59000 60001 (issued (run_requests Ok burst_gaps (mkLimiter 0 0 0 0 [] []))) = 500%nat.
Proof. vm_compute. reflexivity. Qed.

(* ------------------------------------------------------------------ *)
(** ** C3: the concurrency bound *)

Lemma map_phase_full {A} mx a (l : list A) :
  (mx <= a)%nat -> map_phase mx a l = (a, repeat Sleeping (List.length l)).
Proof.
  intros H. induction l as [|x r IH]; simpl; auto.
  replace (mx <=? a)%nat with true by (symmetry; apply Nat.leb_le; lia).
  rewrite IH. reflexivity.
Qed.

Lemma map_phase_fill {A} mx (l : list A) :
  forall a, (a <= mx)%nat ->
  map_phase mx a l =
    (a + Nat.min (List.length l) (mx - a),
     repeat Downloading (Nat.min (List.length l) (mx - a)) ++
     repeat Sleeping (List.length l - (mx - a)))%nat.
Proof.
  induction l as [|x r IH]; intros a Ha; simpl; [f_equal; lia|].
  destruct (mx <=? a)%nat eqn:E.
  - apply Nat.leb_le in E. rewrite map_phase_full by lia.
    replace (mx - a)%nat with 0%nat by lia. simpl.
    rewrite Nat.add_0_r. reflexivity.
  - apply Nat.leb_gt in E. rewrite IH by lia.
    replace (mx - a)%nat with (S (mx - S a)) by lia.
    simpl. f_equal. lia.
Qed.

Lemma nth_error_repeat_app {A} (x y : A) k r : nth_error (repeat x k ++ y :: r) k = Some y.
Proof. induction k; simpl; auto. Qed.

Lemma set_nth_repeat_app {A} (x y z : A) k r :
  set_nth k z (repeat x k ++ y :: r) = repeat x k ++ z :: r.
Proof. induction k; simpl; f_equal; auto. Qed.

Lemma repeat_app_cons {A} (x : A) k r : repeat x k ++ x :: r = repeat x (S k) ++ r.
Proof. induction k; simpl; f_equal; auto. Qed.

Lemma wake_all k m a :
  batch_run (map Wake (seq k m)) (mkBatch a (repeat Downloading k ++ repeat Sleeping m)) =
  Some (mkBatch (a + m) (repeat Downloading (k + m))).
Proof.
  revert k a. induction m as [|m IH]; intros k a; simpl.
  - rewrite app_nil_r, !Nat.add_0_r. reflexivity.
  - rewrite nth_error_repeat_app. cbv iota.
    rewrite set_nth_repeat_app, repeat_app_cons.
    rewrite IH. replace (S k + m)%nat with (k + S m)%nat by lia.
    replace (S a + m)%nat with (a + S m)%nat by lia. reflexivity.
Qed.

(** C3 (code bug).  In [processDownloadQueue], a batch of [n] items with
    [maxConcurrentDownloads = max <= n] starts with [max] downloads, and
    once the 100 ms timers of the other [n - max] callbacks have fired
    (items that take longer than that), all [n] items are downloading at
    once: [activeDownloads = n]. *)
Theorem processDownloadQueue_exceeds_limit {A : Type} (mx : nat) (batch : list A)
    (Hle : (mx <= List.length batch)%nat) :
  activeDownloads (batch_start mx 0 batch) = mx /\
  batch_run (map Wake (seq mx (List.length batch - mx))) (batch_start mx 0 batch) =
    Some (mkBatch (List.length batch) (repeat Downloading (List.length batch))).
Proof.
  unfold batch_start. rewrite map_phase_fill by lia.
  rewrite Nat.sub_0_r, Nat.add_0_l.
  replace (Nat.min (List.length batch) mx) with mx by lia.
  split; [reflexivity|].
  rewrite wake_all. do 3 f_equal; lia.
Qed.

Lemma processDownloadQueue_exceeds_limit_witness :
  (3 <= List.length (repeat tt 10))%nat /\
  batch_run (map Wake (seq 3 7)) (batch_start 3 0 (repeat tt 10)) =
    Some (mkBatch 10 (repeat Downloading 10)).
Proof.
  split; [simpl; lia|].
  exact (proj2 (processDownloadQueue_exceeds_limit 3 (repeat tt 10) ltac:(simpl; lia))).
Defined.

Lemma has_absent {V} (m : list (key * V)) k :
  ~ In k (map fst m) -> JsMap.has m k = false.
Proof.
  unfold JsMap.has. induction m as [|[k' v] r IH]; intros H; simpl; auto.
  destruct (key_eqb k k') eqn:E.
  - apply key_eqb_true in E. subst. exfalso. apply H. now left.
  - apply IH. intros Hin. apply H. now right.
Qed.

Lemma map_fst_delete {V} (m : list (key * V)) k :
  map fst (JsMap.delete m k) = filter (fun x => negb (key_eqb k x)) (map fst m).
Proof.
  unfold JsMap.delete. induction m as [|[k' v] r IH]; simpl; auto.
  destruct (key_eqb k k'); simpl; rewrite IH; reflexivity.
Qed.

Lemma filter_absent k l :
  ~ In k l -> filter (fun x => negb (key_eqb k x)) l = l.
Proof.
  induction l as [|y r IH]; intros Hk; simpl; auto.
  destruct (key_eqb k y) eqn:E.
  - apply key_eqb_true in E. subst. exfalso. apply Hk. now left.
  - simpl. f_equal. apply IH. intros Hin. apply Hk. now right.
Qed.

Lemma filter_remove_first k l :
  NoDup l -> filter (fun x => negb (key_eqb k x)) l = remove_first k l.
Proof.
  induction l as [|x r IH]; intros Hnd; simpl; auto.
  inversion Hnd as [|? ? Hx Hr]; subst.
  destruct (key_eqb k x) eqn:E; simpl.
  - apply key_eqb_true in E. subst x. apply filter_absent, Hx.
  - f_equal. apply IH, Hr.
Qed.

Lemma orch_step_inv lim o o' : orch_step lim o o' -> orch_inv lim o -> orch_inv lim o'.
Proof.
  intros Hs Hi. destruct Hs; destruct Hi as (Hm & Hq & Hf & Hdis & Hlen); cbn in *;
    unfold orch_inv; cbn [activeMap inFlight validQueue].
  - apply NoDup_cons_iff in Hq as [_ Hq'].
    refine (conj Hm (conj Hq' (conj Hf (conj _ Hlen)))).
    intros x Hx. apply Hdis. now right.
  - apply NoDup_cons_iff in Hq as [Hk Hq'].
    assert (Hkf : ~ In k fl) by (apply Hdis; now left).
    unfold JsMap.set. rewrite has_absent by (rewrite Hm; exact Hkf). cbv iota.
    refine (conj _ (conj Hq' (conj _ (conj _ _)))).
    + rewrite map_app, Hm. reflexivity.
    + apply (Permutation_NoDup (Permutation_cons_append fl k)).
      now constructor.
    + intros x Hx Hin. apply in_app_or in Hin as [Hin|[<-|[]]].
      * exact (Hdis x (or_intror Hx) Hin).
      * now apply Hk.
    + rewrite length_app. simpl. lia.
  - refine (conj _ (conj Hq (conj _ (conj _ _)))).
    + rewrite map_fst_delete, Hm. apply filter_remove_first, Hf.
    + rewrite <- filter_remove_first by exact Hf. apply NoDup_filter, Hf.
    + intros x Hx Hin. rewrite <- filter_remove_first in Hin by exact Hf.
      apply filter_In in Hin as [Hin _]. exact (Hdis x Hx Hin).
    + unfold JsMap.delete. pose proof (filter_length_le (fun kv => negb (key_eqb k (fst kv))) am).
      lia.
Qed.

(** Extra property.  In the download loop of part_006, started from a queue
    of distinct ids and no download, the number of downloads running at
    once never exceeds [Math.min(settings.concurrentDownloads || 3, 5)]. *)
Theorem startSync_download_loop_bounded (setting : option nat) (q : list key) (o : Orch)
    (Hq : NoDup q) (Hr : orch_reach (concurrency_of setting) (mkOrch q [] []) o) :
  (List.length (inFlight o) <= concurrency_of setting)%nat /\ (concurrency_of setting <= 5)%nat.
Proof.
  split; [|unfold concurrency_of; lia].
  assert (Hi : orch_inv (concurrency_of setting) (mkOrch q [] [])).
  { refine (conj eq_refl (conj Hq (conj (NoDup_nil _) (conj (fun _ _ H => H) _)))). simpl. lia. }
  revert Hi. induction Hr as [o|o o' o'' Hs Hr IH]; intros Hi.
  - destruct Hi as (Hm & _ & _ & _ & Hlen). rewrite <- Hm, length_map. exact Hlen.
  - apply IH. eapply orch_step_inv; eauto.
Qed.

Lemma startSync_download_loop_bounded_witness :
  (List.length (inFlight (mkOrch [] [(Some "a"%string, tt)] [Some "a"%string]))
     <= concurrency_of None)%nat.
Proof.
  apply (proj1 (startSync_download_loop_bounded None [Some "a"%string]
    (mkOrch [] [(Some "a"%string, tt)] [Some "a"%string])
    ltac:(repeat constructor; simpl; tauto)
    (orch_next _ _ _ _ (orch_download (concurrency_of None) (Some "a"%string) [] [] []
                          (proj1 (Nat.ltb_lt 0 (concurrency_of None)) eq_refl))
       (orch_refl _ _)))).
Defined.

(* ------------------------------------------------------------------ *)
(** ** C4: when the cleanup of removed files runs *)

Module OlderSyncFacts.
Import OlderSync.

Lemma cleanup_inv_step lim setting n r r' :
  run_step lim setting r r' -> cleanup_inv setting n r -> cleanup_inv setting n r'.
Proof.
  intros Hs.
  destruct Hs as [r|r|r|r Hpc Hl Hq0 Hlim Hp|r Hpc Hl Hq0 Hlim Hp|r Ha0|r Hpc Hl|r Hpc Ha0|r Hpc];
    intros (Hn & Hq & Ha & Hc);
    unfold cleanup_inv, with_flags in *; cbn [pc queueLen active finished isPaused isCancelled cleanedUp] in *.
  - exact (conj Hn (conj Hq (conj Ha Hc))).
  - exact (conj Hn (conj Hq (conj Ha Hc))).
  - refine (conj Hn (conj _ (conj Ha Hc))). intros _. now left.
  - refine (conj _ (conj (fun H => False_ind _ (H eq_refl)) (conj _ _))); [lia | intros [H|H]; discriminate |].
    intros H. destruct (Hc H) as [H' _]. congruence.
  - refine (conj _ (conj (fun H => False_ind _ (H eq_refl)) (conj _ _))); [lia | intros [H|H]; discriminate |].
    intros H. destruct (Hc H) as [H' _]. congruence.
  - refine (conj _ (conj Hq (conj _ _))); [lia | |].
    + intros H. specialize (Ha H). lia.
    + intros H. destruct (Hc H) as (H1 & H2 & H3). repeat split; auto.
  - refine (conj Hn (conj _ (conj _ _))); [| intros [H|H]; discriminate |].
    + intros _. unfold loop_cond in Hl.
      destruct (isCancelled r); [now left | right].
      rewrite andb_true_r in Hl. apply orb_false_iff in Hl as [H1 _].
      apply Nat.ltb_ge in H1. lia.
    + intros H. destruct (Hc H) as [H' _]. congruence.
  - refine (conj Hn (conj _ (conj (fun _ => Ha0) _))).
    + intros _. apply Hq. congruence.
    + intros H. destruct (Hc H) as [H' _]. congruence.
  - refine (conj Hn (conj _ (conj _ _))).
    + intros _. apply Hq. congruence.
    + intros _. apply Ha. now left.
    + intros H. split; [reflexivity|].
      destruct (cleanedUp r) eqn:Ec.
      * destruct (Hc eq_refl) as (_ & H2 & H3). auto.
      * destruct (isCancelled r) eqn:Ek; cbn in H; [discriminate|].
        split; [exact H|].
        destruct (Hq ltac:(congruence)) as [H'|H']; [discriminate|exact H'].
Qed.

Lemma cancelled_step lim setting r r' :
  run_step lim setting r r' -> isCancelled r = true -> cleanedUp r = false ->
  isCancelled r' = true /\ cleanedUp r' = false.
Proof.
  intros Hs Hk Hc. destruct Hs; cbn; rewrite ?Hk, ?Hc; auto.
Qed.

(** C4.  In a run of the part_006 [startSync] from [n] queued items,
    [cleanupRemovedFiles] has been called only if the setting is on and
    every item was processed (none queued, none downloading, all [n]
    finished); and once the run has been cancelled before the cleanup,
    the cleanup never happens afterwards. *)
Theorem startSync_cleanup_only_after_full_run (lim : nat) (setting : bool) (n : nat) (r : Run)
    (Hr : run_reach lim setting (init n) r) :
  (cleanedUp r = true ->
   setting = true /\ queueLen r = 0%nat /\ active r = 0%nat /\ finished r = n) /\
  (forall r', run_reach lim setting r r' -> isCancelled r = true -> cleanedUp r = false ->
              cleanedUp r' = false).
Proof.
  split.
  - assert (Hi : cleanup_inv setting n (init n)).
    { unfold cleanup_inv, init; cbn. refine (conj _ (conj _ (conj _ _))).
      - lia.
      - intros H. congruence.
      - intros [H|H]; discriminate.
      - intros H; discriminate. }
    assert (Hinv : cleanup_inv setting n r).
    { remember (init n) as r0 eqn:E. clear E.
      induction Hr as [r0|r0 r1 r2 Hs Hr IH]; auto.
      apply IH. eapply cleanup_inv_step; eauto. }
    intros Hc. destruct Hinv as (Hn & _ & Ha & Hcl).
    destruct (Hcl Hc) as (Hpc & Hset & Hq).
    assert (Ha0 : active r = 0%nat) by (apply Ha; now right).
    repeat split; auto. lia.
  - intros r' Hr' Hk Hc. clear Hr.
    induction Hr' as [r0|r0 r1 r2 Hs Hr IH]; auto.
    destruct (cancelled_step _ _ _ _ Hs Hk Hc) as [Hk' Hc'].
    exact (IH Hk' Hc').
Qed.

Lemma full_run_reach : run_reach 3 true (init 1) full_run.
Proof.
  eapply rr_step. { apply rs_start; reflexivity || (cbn; lia). } cbn.
  eapply rr_step. { apply rs_settle; cbn; lia. } cbn.
  eapply rr_step. { apply rs_exit; reflexivity. } cbn.
  eapply rr_step. { apply rs_drained; reflexivity. } cbn.
  eapply rr_step. { apply rs_cleanup; reflexivity. } cbn.
  apply rr_refl.
Qed.

Lemma startSync_cleanup_only_after_full_run_witness :
  run_reach 3 true (init 1) full_run /\ finished full_run = 1%nat.
Proof.
  split; [exact full_run_reach|].
  exact (proj2 (proj2 (proj2 (proj1 (startSync_cleanup_only_after_full_run 3 true 1 full_run
           full_run_reach) eq_refl)))).
Defined.

End OlderSyncFacts.

(* ------------------------------------------------------------------ *)
(** ** C8: concurrent sync requests *)

Module ServerRoutesFacts.
Import ServerRoutes.

Lemma status_eqb_true a b : status_eqb a b = true <-> a = b.
Proof. destruct a, b; cbn; split; congruence. Qed.

(** C8 (code bug).  While a run of the server [startSync] is in progress
    and still initializing or verifying, [POST /sync] answers 200 and
    starts a second, interleaved run; pause and resume outside their
    required status are rejected with 400 and leave the state as it
    was. *)
Theorem sync_route_accepts_second_run (s : SyncState)
    (Hrun : syncInProgress s = true)
    (Hst : status s = Initializing \/ status s = Verifying) :
  post_sync true s = (ok "Sync started", startSync_enter s) /\
  activeRuns (startSync_enter s) = S (activeRuns s) /\
  (forall s', status s' <> Running -> post_pause s' = (bad_request "Sync is not running", s')) /\
  (forall s', status s' <> Paused -> post_resume s' = (bad_request "Sync is not paused", s')).
Proof.
  split; [|split; [reflexivity|split]].
  - unfold post_sync. destruct Hst as [H|H]; rewrite H; reflexivity.
  - intros s' H. unfold post_pause.
    destruct (status_eqb (status s') Running) eqn:E; [|reflexivity].
    apply status_eqb_true in E. contradiction.
  - intros s' H. unfold post_resume.
    destruct (status_eqb (status s') Paused) eqn:E; [|reflexivity].
    apply status_eqb_true in E. contradiction.
Qed.

Lemma sync_route_accepts_second_run_witness :
  let s1 := snd (post_sync true idle) in
  syncInProgress s1 = true /\ status s1 = Initializing /\
  activeRuns (snd (post_sync true s1)) = 2%nat.
Proof.
  cbv zeta. split; [reflexivity|split; [reflexivity|]].
  rewrite (proj1 (sync_route_accepts_second_run (snd (post_sync true idle))
                    eq_refl (or_introl eq_refl))).
  reflexivity.
Defined.

End ServerRoutesFacts.

(* ------------------------------------------------------------------ *)
(** ** Older SyncService: cleanup against the names the loop writes *)

Lemma list_ascii_of_string_app (a b : string) :
  list_ascii_of_string (a ++ b) = list_ascii_of_string a ++ list_ascii_of_string b.
Proof. induction a as [|c a IH]; simpl; [reflexivity | now rewrite IH]. Qed.

Lemma has_underscore_app (a b : string) :
  has_underscore (a ++ b) = has_underscore a || has_underscore b.
Proof. unfold has_underscore. now rewrite list_ascii_of_string_app, existsb_app. Qed.

Lemma generatePhotoFileName_underscore getTime photo n :
  generatePhotoFileName getTime photo = Some n -> has_underscore n = true.
Proof.
  unfold generatePhotoFileName.
  destruct (filename photo) as [fn|]; [|discriminate].
  destruct (mediaMetadata photo) as [md|]; [|discriminate].
  intros H; injection H as <-.
  rewrite !has_underscore_app. simpl. now rewrite orb_true_r.
Qed.

Lemma photo_names_underscore getTime ps ns :
  photo_names getTime ps = Some ns -> forall n, In n ns -> has_underscore n = true.
Proof.
  revert ns; induction ps as [|p ps IH]; simpl; intros ns H n Hn.
  - injection H as <-; destruct Hn.
  - destruct (generatePhotoFileName getTime p) as [m|] eqn:Eg; [|discriminate].
    destruct (photo_names getTime ps) as [ms|]; [|discriminate].
    injection H as <-. destruct Hn as [<-|Hn].
    + exact (generatePhotoFileName_underscore getTime p m Eg).
    + exact (IH ms eq_refl n Hn).
Qed.

Lemma queue_filename_underscore syncPhotos syncVideos photo i f :
  queue_filename syncPhotos syncVideos photo = Some f -> id photo = Some i ->
  has_underscore i = false -> has_underscore f = false.
Proof.
  unfold queue_filename. intros H Hi Hu.
  destruct (mediaMetadata photo) as [md|]; [|discriminate].
  rewrite Hi in H.
  destruct (_ || _); [discriminate|].
  injection H as <-. rewrite has_underscore_app, Hu.
  now destruct (video md).
Qed.

(** X2. In the older [SyncService] (part_006), the download loop writes
    each item under the name [`${photo.id}${extension}`], while
    [cleanupRemovedFiles] keeps only entries named
    [generatePhotoFileName(photo)] = [`${name}_${timestamp}${ext}`] for the
    discovered photos, and unlinks every other entry. A name built by
    [generatePhotoFileName] always contains an underscore. So a file the loop
    wrote for an item whose id has no underscore is unlinked by the cleanup,
    whatever the discovered photos are. *)
Theorem startSync_cleanup_removes_downloaded_files getTime syncPhotos syncVideos
    (files : list string) (currentPhotos : list MediaObj) (removed : list string)
    (photo : MediaObj) (i f : string)
    (Hclean : cleanupRemovedFiles getTime files currentPhotos = Some removed)
    (Hq : queue_filename syncPhotos syncVideos photo = Some f)
    (Hid : id photo = Some i)
    (Hu : has_underscore i = false)
    (Hf : In f files) :
  In f removed.
Proof.
  unfold cleanupRemovedFiles in Hclean.
  destruct (photo_names getTime currentPhotos) as [ns|] eqn:En; [|discriminate].
  injection Hclean as <-.
  apply filter_In; split; [exact Hf|].
  apply negb_true_iff.
  destruct (existsb (String.eqb f) ns) eqn:Ex; [|reflexivity].
  apply existsb_exists in Ex as [n [Hn Heq]].
  apply String.eqb_eq in Heq; subst n.
  pose proof (photo_names_underscore getTime currentPhotos ns En f Hn) as H1.
  rewrite (queue_filename_underscore syncPhotos syncVideos photo i f Hq Hid Hu) in H1.
  discriminate.
Qed.

(** A photo [IMG_0001.JPG] created 2023-05-01T10:00:00Z is written as
    [AF1QipMx9.jpg]; in a directory holding it and
    [IMG_0001_1682935200000.JPG], the cleanup unlinks the downloaded file. *)
Lemma startSync_cleanup_removes_downloaded_files_witness :
  cleanupRemovedFiles IsoDate.getTime
    ["AF1QipMx9.jpg"%string; "IMG_0001_1682935200000.JPG"%string] [x2_photo]
    = Some ["AF1QipMx9.jpg"%string] /\
  In "AF1QipMx9.jpg"%string ["AF1QipMx9.jpg"%string].
Proof.
  split; [vm_compute; reflexivity|].
  exact (startSync_cleanup_removes_downloaded_files IsoDate.getTime true true
           ["AF1QipMx9.jpg"%string; "IMG_0001_1682935200000.JPG"%string] [x2_photo]
           ["AF1QipMx9.jpg"%string] x2_photo "AF1QipMx9"%string "AF1QipMx9.jpg"%string
           (eq_refl) (eq_refl) (eq_refl) (eq_refl) (or_introl eq_refl)).
Defined.

(* ------------------------------------------------------------------ *)
(** ** A cancelled sync stays cancelled *)

Lemma verify_loop_cancelled getTime now items existing c :
  verify_loop getTime now true items existing c = c.
Proof. destruct existing; reflexivity. Qed.

Lemma startSync_cancelled getTime now transfer syncDir items existing d :
  items <> [] ->
  files (final_disk (startSync getTime now transfer syncDir true items existing d)) = files d /\
  run_status (startSync getTime now transfer syncDir true items existing d) = StCompleted.
Proof.
  intros Hne. destruct items as [|it rest]; [contradiction|].
  unfold startSync. rewrite verify_loop_cancelled.
  destruct (filter _ _) as [|x r]; [split; reflexivity|].
  simpl. split; reflexivity.
Qed.

Module SyncLifecycleFacts.
Import ServerRoutes SyncLifecycle.

(** X3. [POST /sync/cancel] sets [currentSync.isCancelled] and nothing in
    the server [startSync] or in the routes clears it again: once a running
    or paused sync is cancelled, the run ends, a later [POST /sync] is
    accepted with 200, and that new run sees [isCancelled = true]; it
    verifies nothing, downloads nothing (the files on disk are unchanged)
    and still ends ['completed'], with [isCancelled] still set for the
    next run. *)
Theorem cancel_disables_later_runs (getTime : string -> option Z) (now : Z)
    (transfer : MediaObj -> bool) (syncDir : string) (s : SyncState) (st : RunStatus)
    (items : list MediaObj) (existing : list string) (d : Disk)
    (Hs : status s = Running \/ status s = Paused) (Hitems : items <> []) :
  let s1 := snd (post_cancel s) in
  let s2 := finish_run st s1 in
  let resp := fst (post_sync true s2) in
  let s3 := snd (post_sync true s2) in
  let o := startSync getTime now transfer syncDir (isCancelled s3) items existing d in
  fst (post_cancel s) = ok "Sync cancelled" /\
  resp = ok "Sync started" /\ isCancelled s3 = true /\
  files (final_disk o) = files d /\ run_status o = StCompleted /\
  isCancelled (finish_run (run_status o) s3) = true.
Proof.
  assert (Hc : fst (post_cancel s) = ok "Sync cancelled" /\ isCancelled (snd (post_cancel s)) = true
               /\ (status (snd (post_cancel s)) = Cancelled)).
  { unfold post_cancel. destruct Hs as [H|H]; rewrite H; simpl; auto. }
  destruct Hc as (Hc1 & Hc2 & Hc3).
  cbv zeta.
  assert (Hsync : post_sync true (finish_run st (snd (post_cancel s)))
                  = (ok "Sync started", startSync_enter (finish_run st (snd (post_cancel s))))).
  { unfold post_sync, finish_run. destruct st; reflexivity. }
  rewrite Hsync. cbn [fst snd].
  assert (Hi : isCancelled (startSync_enter (finish_run st (snd (post_cancel s)))) = true).
  { unfold startSync_enter, finish_run. simpl. exact Hc2. }
  rewrite Hi.
  destruct (startSync_cancelled getTime now transfer syncDir items existing d Hitems) as [Hf Hr].
  refine (conj Hc1 (conj eq_refl (conj eq_refl (conj Hf (conj Hr _))))).
  unfold finish_run. simpl. exact Hi.
Qed.

(** A paused sync of one item is cancelled; the next run, with that item
    not on disk, leaves the disk as it was. *)
Lemma cancel_disables_later_runs_witness :
  (status (mkSyncState Paused true false true 1) = Running \/
   status (mkSyncState Paused true false true 1) = Paused) /\
  [sample] <> [] /\
  files (final_disk (startSync IsoDate.getTime c9_now (fun _ => true) "/photos" true
                       [sample] [] (mkDisk (mkSyncCache [] false None) []))) = [].
Proof.
  refine (conj (or_intror eq_refl) (conj (fun H => nil_cons (eq_sym H)) _)).
  pose proof (cancel_disables_later_runs IsoDate.getTime c9_now (fun _ => true) "/photos"
                (mkSyncState Paused true false true 1) StCompleted [sample] []
                (mkDisk (mkSyncCache [] false None) []) (or_intror eq_refl)
                (fun H => nil_cons (eq_sym H))) as H.
  exact (proj1 (proj2 (proj2 (proj2 H)))).
Defined.

End SyncLifecycleFacts.

(* ------------------------------------------------------------------ *)
(** ** The discovery cache *)

Lemma cfs_read_write fs p d q :
  cfs_read (cfs_write fs p d) q = if String.eqb p q then Some d else cfs_read fs q.
Proof.
  unfold cfs_write. simpl. destruct (String.eqb p q) eqn:E; [reflexivity|].
  induction fs as [|[q' d'] r IH]; simpl; [reflexivity|].
  destruct (String.eqb q' p) eqn:E1; simpl.
  - apply String.eqb_eq in E1; subst q'. rewrite E. exact IH.
  - destruct (String.eqb q' q); [reflexivity | exact IH].
Qed.

Lemma opt_str_eqb_refl a : opt_str_eqb a a = true.
Proof. destruct a; simpl; [apply String.eqb_refl | reflexivity]. Qed.

Lemma opt_str_eqb_true a b : opt_str_eqb a b = true -> a = b.
Proof.
  destruct a, b; simpl; try discriminate; auto.
  intros H; apply String.eqb_eq in H; now subst.
Qed.

Lemma loadDiscoveryCache_no_dir settings u now fs ff dr :
  loadDiscoveryCache settings u now fs None ff dr = (None, dr).
Proof.
  unfold loadDiscoveryCache, getDiscoveryCacheFilename.
  destruct (enableCaching settings); [|reflexivity].
  destruct (truthy_str u); reflexivity.
Qed.

(** X4. The server [startSync] falls back on
    [photosService.loadDiscoveryCache()] without a [syncDir], so the path
    of the cache file cannot be built and the fallback never yields items:
    when there are no discovery results in memory, the run fails with "No
    items found in discovery cache", whatever cache files exist and
    whatever the caching settings. *)
Theorem startSync_cache_fallback_never_loads (settings : CacheSettings)
    (currentUserId : option string) (now : Z) (fs : CacheFs)
    (discoveryResults : option DiscoveryResults)
    (Hmem : has_items discoveryResults = false) :
  startSync_discovery settings currentUserId now fs discoveryResults =
  Throw (Error "No items found in discovery cache. Please run discovery first.").
Proof.
  unfold startSync_discovery. rewrite Hmem, loadDiscoveryCache_no_dir, Hmem.
  reflexivity.
Qed.

(** A cache file for the current user, fresh and holding one item, is
    still not used. *)
Lemma startSync_cache_fallback_never_loads_witness :
  let fs := [(JsStr.join "/photos" ".discovery_cache_42.json",
              mkCacheFileData (Some c9_now) (Some "42"%string)
                (Some (mkResults [sample] 1 0 1 1 None)))] in
  loadDiscoveryCache (mkCacheSettings true (Some 86400000)) (Some "42"%string) c9_now fs
    (Some "/photos"%string) false None <> (None, None) /\
  startSync_discovery (mkCacheSettings true (Some 86400000)) (Some "42"%string) c9_now fs None =
  Throw (Error "No items found in discovery cache. Please run discovery first.").
Proof.
  split; [vm_compute; discriminate|].
  exact (startSync_cache_fallback_never_loads _ _ _ _ None eq_refl).
Defined.

(** X5. [saveDiscoveryCache] followed by [loadDiscoveryCache] for the same
    user and directory, with caching enabled and no forced fresh
    discovery, gives back the saved results (items, counts, total and
    pages scanned) with [cacheAge] = the time elapsed since the save; once
    that age exceeds [discoveryCacheTTL] it gives [null] and leaves
    [discoveryResults] unchanged.  With no TTL set the cache never
    expires. *)
Theorem discovery_cache_round_trip (settings : CacheSettings) (u : option string)
    (t0 t1 : Z) (r : DiscoveryResults) (dir : string) (fs : CacheFs)
    (dr : option DiscoveryResults)
    (Hen : enableCaching settings = true) (Hu : truthy_str u = true) :
  let r' := mkResults (res_items r) (res_photoCount r) (res_videoCount r)
                      (totalItems r) (pagesScanned r) None in
  loadDiscoveryCache settings u t1 (saveDiscoveryCache u t0 (Some r) (Some dir) fs)
                     (Some dir) false dr =
  if js_gt (Some (t1 - t0)) (discoveryCacheTTL settings) then (None, dr)
  else (Some (mkFormatted r' (Some t0) (Some (t1 - t0)) (discoveryCacheTTL settings)),
        Some r').
Proof.
  cbv zeta.
  unfold saveDiscoveryCache, loadDiscoveryCache, getDiscoveryCacheFilename.
  rewrite Hen, Hu. simpl negb. cbv iota.
  destruct u as [x|]; [|discriminate].
  rewrite cfs_read_write, String.eqb_refl, opt_str_eqb_refl. simpl negb. cbv iota.
  simpl option_map.
  destruct (js_gt (Some (t1 - t0)) (discoveryCacheTTL settings)); reflexivity.
Qed.

Lemma discovery_cache_round_trip_witness :
  enableCaching (mkCacheSettings true (Some 3600000)) = true /\
  truthy_str (Some "42"%string) = true /\
  fst (loadDiscoveryCache (mkCacheSettings true (Some 3600000)) (Some "42"%string) 4000000
         (saveDiscoveryCache (Some "42"%string) 0 (Some (mkResults [sample] 1 0 1 1 None))
            (Some "/photos"%string) [])
         (Some "/photos"%string) false None) = None.
Proof.
  refine (conj eq_refl (conj eq_refl _)).
  rewrite (discovery_cache_round_trip (mkCacheSettings true (Some 3600000)) (Some "42"%string)
             0 4000000 (mkResults [sample] 1 0 1 1 None) "/photos" [] None eq_refl eq_refl).
  vm_compute. reflexivity.
Defined.

(** X6. A discovery cache saved by one user is never loaded for another:
    after user [u] saves, [loadDiscoveryCache] for a different user [v]
    returns [null] and leaves [discoveryResults] unchanged, provided no
    cache file of [v] existed before.  The file names differ, and a file
    read under the same name would carry the other [userId]. *)
Theorem discovery_cache_per_user (settings : CacheSettings) (u v : option string)
    (t0 t1 : Z) (r : option DiscoveryResults) (dir : string) (fs : CacheFs)
    (ff : bool) (dr : option DiscoveryResults)
    (Huv : u <> v)
    (Hv : forall p, getDiscoveryCacheFilename (Some dir) v = Ret p -> cfs_read fs p = None) :
  loadDiscoveryCache settings v t1 (saveDiscoveryCache u t0 r (Some dir) fs) (Some dir) ff dr
  = (None, dr).
Proof.
  unfold loadDiscoveryCache.
  destruct (enableCaching settings); [|reflexivity].
  destruct (truthy_str v) eqn:Etv; [|reflexivity]. simpl negb. cbv iota.
  destruct (getDiscoveryCacheFilename (Some dir) v) as [p|e] eqn:Ep; [|reflexivity].
  unfold saveDiscoveryCache.
  destruct (truthy_str u) eqn:Etu; simpl negb; cbv iota.
  - destruct (getDiscoveryCacheFilename (Some dir) u) as [q|e] eqn:Eq.
    + rewrite cfs_read_write. destruct (String.eqb q p).
      * simpl. destruct (opt_str_eqb u v) eqn:E; [|reflexivity].
        apply opt_str_eqb_true in E. contradiction.
      * rewrite (Hv p eq_refl). reflexivity.
    + rewrite (Hv p eq_refl). reflexivity.
  - rewrite (Hv p eq_refl). reflexivity.
Qed.

Lemma discovery_cache_per_user_witness :
  (Some "42"%string <> Some "43"%string) /\
  loadDiscoveryCache (mkCacheSettings true None) (Some "43"%string) 5
    (saveDiscoveryCache (Some "42"%string) 0 (Some (mkResults [sample] 1 0 1 1 None))
       (Some "/photos"%string) [])
    (Some "/photos"%string) false None = (None, None).
Proof.
  assert (Hne : Some "42"%string <> Some "43"%string) by discriminate.
  split; [exact Hne|].
  apply (discovery_cache_per_user (mkCacheSettings true None) _ _ 0 5 _ "/photos" [] false None Hne).
  intros p _. reflexivity.
Defined.

(* ------------------------------------------------------------------ *)
(** ** Retries of [downloadPhoto]; [processItem] on a retryable error *)

Lemma get_replace_same {V} (m : list (key * V)) k v :
  JsMap.has m k = true -> JsMap.get (JsMap.replace m k v) k = Some v.
Proof.
  unfold JsMap.has. induction m as [|[k' v'] r IH]; simpl; [discriminate|].
  destruct (key_eqb k k') eqn:E; simpl; rewrite E; auto.
Qed.

Lemma get_app_absent {V} (m : list (key * V)) k v :
  JsMap.get m k = None -> JsMap.get (m ++ [(k, v)]) k = Some v.
Proof.
  induction m as [|[k' v'] r IH]; simpl.
  - rewrite key_eqb_refl. reflexivity.
  - destruct (key_eqb k k'); [discriminate | exact IH].
Qed.

Lemma get_set_same {V} (m : list (key * V)) k v :
  JsMap.get (JsMap.set m k v) k = Some v.
Proof.
  unfold JsMap.set. destruct (JsMap.has m k) eqn:E.
  - now apply get_replace_same.
  - apply get_app_absent. unfold JsMap.has in E. now destruct (JsMap.get m k).
Qed.

Lemma retry_loop_spec now attempt n f a item tp st o st' reqs :
  (a + f = n)%nat ->
  (forall k, (k < a)%nat -> attempt k <> None) ->
  retry_loop now attempt n f a item tp st = (o, st', reqs) ->
  (a <= reqs <= n)%nat /\
  (forall k, (S k < reqs)%nat -> attempt k <> None) /\
  (o = DPUndefined -> f = 0%nat /\ reqs = a /\ st' = st) /\
  (forall e, o = DPRejected e ->
     reqs = n /\ (forall k, (k < n)%nat -> attempt k <> None) /\
     attempt (pred n) = Some e /\ JsMap.get st' (id item) = Some (failed_with now e)) /\
  (o = DPTrue ->
     (1 <= reqs)%nat /\ attempt (pred reqs) = None /\
     JsMap.get st' (id item) = Some (synced_at now tp)).
Proof.
  revert a. induction f as [|f IH]; intros a Hn Hbefore Hrun; cbn -[Nat.eqb Nat.ltb] in Hrun.
  - injection Hrun as <- <- <-. rewrite Nat.add_0_r in Hn. subst a.
    refine (conj (conj (Nat.le_refl _) (Nat.le_refl _)) (conj _ (conj _ (conj _ _)))).
    + intros k Hk. apply Hbefore. lia.
    + intros _. auto.
    + intros e H; discriminate.
    + intros H; discriminate.
  - rewrite (proj2 (Nat.ltb_lt a n)) in Hrun by lia.
    destruct (attempt a) as [e|] eqn:Ea.
    + destruct (S a =? n)%nat eqn:En.
      * apply Nat.eqb_eq in En. injection Hrun as <- <- <-.
        refine (conj (conj _ _) (conj _ (conj _ (conj _ _)))); try lia.
        -- intros k Hk. apply Hbefore. lia.
        -- intros H; discriminate.
        -- intros e' He'. injection He' as <-.
           refine (conj En (conj _ (conj _ (get_set_same _ _ _)))).
           ++ intros k Hk. destruct (Nat.eq_dec k a) as [->|Hka].
              ** rewrite Ea. discriminate.
              ** apply Hbefore. lia.
           ++ rewrite <- En. simpl. exact Ea.
        -- intros H; discriminate.
      * apply Nat.eqb_neq in En.
        assert (Hb' : forall k, (k < S a)%nat -> attempt k <> None).
        { intros k Hk. destruct (Nat.eq_dec k a) as [->|Hka].
          - rewrite Ea. discriminate.
          - apply Hbefore. lia. }
        destruct (IH (S a) ltac:(lia) Hb' Hrun) as ([Hlo Hhi] & Hk & Hu & Hr & Ht).
        refine (conj (conj _ Hhi) (conj Hk (conj _ (conj Hr Ht)))); [lia|].
        intros Ho. destruct (Hu Ho) as [Hf _]. subst f. lia.
    + injection Hrun as <- <- <-.
      refine (conj (conj _ _) (conj _ (conj _ (conj _ _)))); try lia.
      * intros k Hk. apply Hbefore. lia.
      * intros H; discriminate.
      * intros e H; discriminate.
      * intros _. refine (conj _ (conj Ea (get_set_same _ _ _))). lia.
Qed.

(** X7. [downloadPhoto] makes at most [retryAttempts] requests, and every
    request before the last one it makes has failed.  It rejects only
    after [retryAttempts] failed requests, with the error of the last one,
    and then records [{synced: false, error}] for the item.  When it
    resolves [true], the item is recorded as synced at a path: a duplicate
    or an existing non-empty file found without any request, or the file
    written by its last request, which succeeded.  It resolves [undefined]
    only when [retryAttempts] is 0, without any request. *)
Theorem downloadPhoto_retry_bounds (getTime : string -> option Z) (now : Z) (fs : Fs)
    (listing : option (list string)) (size_of : string -> option Z)
    (attempt : nat -> option JsErr) (st : list (key * SyncEntry)) (item : MediaObj)
    (targetDir fileName : string) (retryAttempts : nat)
    (o : DPOutcome) (st' : list (key * SyncEntry)) (reqs : nat)
    (Hrun : downloadPhoto getTime now fs listing size_of attempt st item targetDir fileName
              retryAttempts = (o, st', reqs)) :
  (reqs <= retryAttempts)%nat /\
  (forall k, (S k < reqs)%nat -> attempt k <> None) /\
  (o = DPUndefined -> retryAttempts = 0%nat /\ reqs = 0%nat) /\
  (forall e, o = DPRejected e ->
     reqs = retryAttempts /\ (forall k, (k < retryAttempts)%nat -> attempt k <> None) /\
     attempt (pred retryAttempts) = Some e /\
     JsMap.get st' (id item) = Some (failed_with now e)) /\
  (o = DPTrue -> exists p,
     JsMap.get st' (id item) = Some (mkSyncEntry true (Some p) None now) /\
     (reqs = 0%nat \/ attempt (pred reqs) = None)).
Proof.
  unfold downloadPhoto in Hrun.
  destruct (findDuplicateFile getTime st fs listing item targetDir) as [dup st1].
  destruct (truthy_str dup) eqn:Et.
  - injection Hrun as <- <- <-.
    refine (conj (Nat.le_0_l _) (conj _ (conj _ (conj _ _)))).
    + intros k Hk. lia.
    + intros H; discriminate.
    + intros e H; discriminate.
    + intros _. destruct dup as [p|]; [|discriminate].
      exists p. split; [apply get_set_same | left; reflexivity].
  - destruct (match size_of (JsStr.join targetDir fileName) with
              | Some sz => 0 <? sz | None => false end).
    + injection Hrun as <- <- <-.
      refine (conj (Nat.le_0_l _) (conj _ (conj _ (conj _ _)))).
      * intros k Hk. lia.
      * intros H; discriminate.
      * intros e H; discriminate.
      * intros _. exists (JsStr.join targetDir fileName).
        split; [apply get_set_same | left; reflexivity].
    + destruct (retry_loop_spec now attempt retryAttempts retryAttempts 0 item
                  (JsStr.join targetDir fileName) st1 o st' reqs eq_refl
                  (fun k Hk => match Nat.nlt_0_r k Hk with end) Hrun)
        as ([_ Hhi] & Hk & Hu & Hr & Ht).
      refine (conj Hhi (conj Hk (conj _ (conj Hr _)))).
      * intros Ho. destruct (Hu Ho) as (H1 & H2 & _). auto.
      * intros Ho. destruct (Ht Ho) as (_ & Hn & Hg).
        exists (JsStr.join targetDir fileName). split; [exact Hg | right; exact Hn].
Qed.

(** Three requests answered 503: [downloadPhoto] rejects after the third. *)
Lemma downloadPhoto_retry_bounds_witness :
  downloadPhoto IsoDate.getTime c9_now [] (Some []) (fun _ => None)
    (fun _ => Some (http_failure 503)) [] sample "/photos" "a.jpg" 3
  = (DPRejected (http_failure 503),
     [(id sample, failed_with c9_now (http_failure 503))], 3%nat) /\
  (3 <= 3)%nat.
Proof.
  assert (H : downloadPhoto IsoDate.getTime c9_now [] (Some []) (fun _ => None)
                (fun _ => Some (http_failure 503)) [] sample "/photos" "a.jpg" 3
              = (DPRejected (http_failure 503),
                 [(id sample, failed_with c9_now (http_failure 503))], 3%nat))
    by (vm_compute; reflexivity).
  split; [exact H|].
  exact (proj1 (downloadPhoto_retry_bounds IsoDate.getTime c9_now [] (Some []) (fun _ => None)
                  (fun _ => Some (http_failure 503)) [] sample "/photos" "a.jpg" 3 _ _ _ H)).
Defined.

(** X8. When every download attempt of an item fails (no duplicate, no
    existing non-empty file), [processItem] does not resolve: if the last
    error is retryable (code ECONNRESET, ETIMEDOUT, ECONNREFUSED or
    NETWORK_ERROR, or an HTTP status of 500 or more), it rejects with a
    [TypeError], because [this.addToRetryQueue] does not exist; otherwise
    it resolves.  In both cases the item is recorded as failed. *)
Theorem processItem_retryable_error_throws (getTime : string -> option Z) (now : Z)
    (fs : Fs) (listing : option (list string)) (size_of : string -> option Z)
    (attempt : nat -> option JsErr) (autoOrganize : bool) (retryAttemptsOpt : option nat)
    (generateFolderPath : option Z -> string -> string)
    (st : list (key * SyncEntry)) (item : MediaObj) (syncDir : string)
    (md : MediaMetadata) (errs : nat -> JsErr)
    (Hmd : mediaMetadata item = Some md)
    (Hdup : forall dir, truthy_str (fst (findDuplicateFile getTime st fs listing item dir)) = false)
    (Hnofile : forall p, match size_of p with Some sz => sz <= 0 | None => True end)
    (Hfail : forall k, attempt k = Some (errs k))
    (Hn : (1 <= retryAttempts_of retryAttemptsOpt)%nat) :
  let n := retryAttempts_of retryAttemptsOpt in
  let r := processItem getTime now fs listing size_of attempt false autoOrganize
             retryAttemptsOpt generateFolderPath st item syncDir in
  fst r = (if shouldRetry (errs (pred n)) then Throw TypeError else Ret tt) /\
  JsMap.get (snd r) (id item) = Some (failed_with now (errs (pred n))).
Proof.
  cbv zeta. unfold processItem. rewrite Hmd.
  destruct (generateFileName_object_total getTime now item) as [fname Hg]. rewrite Hg.
  set (dir := if autoOrganize then _ else syncDir).
  unfold downloadPhoto.
  pose proof (Hdup dir) as Hd.
  destruct (findDuplicateFile getTime st fs listing item dir) as [dup st1]. simpl in Hd.
  rewrite Hd.
  assert (Hv : match size_of (JsStr.join dir fname) with
               | Some sz => 0 <? sz | None => false end = false).
  { pose proof (Hnofile (JsStr.join dir fname)) as Hs.
    destruct (size_of (JsStr.join dir fname)); [apply Z.ltb_ge; exact Hs | reflexivity]. }
  rewrite Hv.
  destruct (retry_loop now attempt (retryAttempts_of retryAttemptsOpt)
              (retryAttempts_of retryAttemptsOpt) 0 item (JsStr.join dir fname) st1)
    as [[o st'] reqs] eqn:Er.
  destruct (retry_loop_spec now attempt _ _ 0 item _ st1 o st' reqs eq_refl
              (fun k Hk => match Nat.nlt_0_r k Hk with end) Er)
    as (_ & _ & Hu & Hr & Ht).
  destruct o as [| |e].
  - destruct (Ht eq_refl) as (_ & Ha & _). rewrite Hfail in Ha. discriminate.
  - destruct (Hu eq_refl) as (H0 & _). lia.
  - destruct (Hr e eq_refl) as (_ & _ & Ha & Hget).
    rewrite Hfail in Ha. injection Ha as <-.
    destruct (shouldRetry (errs (pred (retryAttempts_of retryAttemptsOpt)))); split;
      try reflexivity; exact Hget.
Qed.

(** Three 503 answers: the item is recorded as failed and [processItem]
    rejects with a [TypeError]. *)
Lemma processItem_retryable_error_throws_witness :
  fst (processItem IsoDate.getTime c9_now [] (Some []) (fun _ => None)
         (fun _ => Some (http_failure 503)) false false None (fun _ d => d) [] sample "/photos")
  = Throw TypeError.
Proof.
  refine (proj1 (processItem_retryable_error_throws IsoDate.getTime c9_now [] (Some [])
                   (fun _ => None) (fun _ => Some (http_failure 503)) false None (fun _ d => d)
                   [] sample "/photos" _ (fun _ => http_failure 503) eq_refl _ _ _ _)).
  - intros dir. reflexivity.
  - intros p. exact I.
  - intros k. reflexivity.
  - cbv. lia.
Defined.

(* ------------------------------------------------------------------ *)
(** ** The ledgers on disk and their reports *)

Lemma get_notin {V} (m : list (key * V)) (k : key) :
  ~ In k (map fst m) -> JsMap.get m k = None.
Proof.
  induction m as [|[k' v] r IH]; simpl; intro Hn; auto.
  destruct (key_eqb k k') eqn:E.
  - apply key_eqb_true in E; subst; tauto.
  - apply IH; tauto.
Qed.

Lemma fold_set_fresh {V} (l pre : list (key * V)) :
  NoDup (map fst (pre ++ l)) ->
  fold_left (fun m kv => JsMap.set m (fst kv) (snd kv)) l pre = pre ++ l.
Proof.
  revert pre; induction l as [|[k v] l IH]; intros pre Hnd; simpl.
  - now rewrite app_nil_r.
  - rewrite map_app in Hnd; simpl in Hnd.
    assert (Hk : ~ In k (map fst pre)).
    { intro Hin; apply (NoDup_remove_2 _ _ _ Hnd); apply in_or_app; now left. }
    unfold JsMap.set, JsMap.has; rewrite (get_notin pre k Hk).
    rewrite IH.
    + now rewrite <- app_assoc.
    + rewrite <- app_assoc, map_app; simpl; exact Hnd.
Qed.

Lemma map_of_entries_nodup {V} (l : list (key * V)) :
  NoDup (map fst l) -> map_of_entries l = l.
Proof. intro H; unfold map_of_entries; now rewrite fold_set_fresh. Qed.

(** X9: writing both ledgers with [saveSyncState] and reading them back with
    [loadSyncState] gives the same two maps (in the same order) whenever their
    keys are distinct, as the keys of a [Map] are; a missing or unreadable
    [.sync_state.json] empties both ledgers, even when [.deleted_items.json]
    is readable, while a missing [.deleted_items.json] only empties the
    deleted-items ledger. *)
Theorem sync_state_round_trip (st : list (key * SyncEntry)) (del : list (key * DeletedEntry))
  (Hst : NoDup (map fst st)) (Hdel : NoDup (map fst del)) :
  loadSyncState (saveSyncState st del) = (st, del) /\
  (forall d, loadSyncState (mkStateFiles FileMissing d) = ([], [])) /\
  (forall d, loadSyncState (mkStateFiles FileUnparsable d) = ([], [])) /\
  loadSyncState (mkStateFiles (FileEntries st) FileMissing) = (st, []).
Proof.
  unfold loadSyncState, saveSyncState; simpl.
  rewrite !map_of_entries_nodup by assumption.
  refine (conj eq_refl (conj _ (conj _ eq_refl))); reflexivity.
Qed.

Definition x9_state : list (key * SyncEntry) :=
  [(Some "A"%string, mkSyncEntry true (Some "/photos/a.jpg"%string) None 10);
   (Some "B"%string, mkSyncEntry false None (Some "Request failed"%string) 20)].

Definition x9_deleted : list (key * DeletedEntry) :=
  [(Some "C"%string, mkDeleted (Some "/photos/c.jpg"%string) (Some 30))].

Lemma sync_state_round_trip_witness :
  NoDup (map fst x9_state) /\ NoDup (map fst x9_deleted) /\
  loadSyncState (saveSyncState x9_state x9_deleted) = (x9_state, x9_deleted).
Proof.
  assert (H1 : NoDup (map fst x9_state)).
  { simpl. constructor; [simpl; intros [H|H]; [discriminate|exact H]|].
    constructor; [simpl; tauto|constructor]. }
  assert (H2 : NoDup (map fst x9_deleted)).
  { simpl. constructor; [simpl; tauto|constructor]. }
  refine (conj H1 (conj H2 _)).
  exact (proj1 (sync_state_round_trip x9_state x9_deleted H1 H2)).
Defined.

Lemma filter_partition_length {A} (p : A -> bool) (l : list A) :
  (List.length (filter p l) + List.length (filter (fun x => negb (p x)) l))%nat = List.length l.
Proof. induction l as [|x l IH]; simpl; auto; destruct (p x); simpl; lia. Qed.

Lemma fold_js_max_fin (l : list Z) (x : Z) :
  fold_left js_max l (Fin x) = Fin (fold_left Z.max l x).
Proof. revert x; induction l as [|y l IH]; intro x; simpl; auto. Qed.

Lemma fold_max_spec (l : list Z) (x : Z) :
  (fold_left Z.max l x = x \/ In (fold_left Z.max l x) l) /\
  x <= fold_left Z.max l x /\ (forall y, In y l -> y <= fold_left Z.max l x).
Proof.
  revert x; induction l as [|y l IH]; intro x; simpl.
  - split; [now left|split; [lia|tauto]].
  - destruct (IH (Z.max x y)) as [[Heq|Hin] [Hge Hall]].
    + rewrite Heq; split; [|split; [lia|intros z [<-|Hz]; [lia|specialize (Hall z Hz); lia]]].
      destruct (Z.max_spec x y) as [[_ ->]|[_ ->]]; auto.
    + split; [right; now right|split; [lia|intros z [<-|Hz]; [lia|auto]]].
Qed.

(** X10: [getSyncStats] counts every ledger entry exactly once, as synced or
    as failed; [lastSyncTimestamp] is [-Infinity] exactly when the ledger is
    empty, and otherwise the largest [timestamp] of its entries. *)
Theorem getSyncStats_partition (size_of : string -> option Z)
  (st : list (key * SyncEntry)) (del : list (key * DeletedEntry))
  (dr : option DiscoveryResults) :
  let s := getSyncStats size_of st del dr in
  (totalSynced s + totalFailed s)%nat = List.length st /\
  totalDeleted s = List.length del /\
  match lastSyncTimestamp s with
  | NegInf => st = []
  | Fin m => (exists e, In e st /\ timestamp (snd e) = m) /\
             (forall e, In e st -> timestamp (snd e) <= m)
  end.
Proof.
  cbn zeta; unfold getSyncStats; simpl.
  split; [rewrite filter_partition_length; apply length_map|split; [reflexivity|]].
  destruct st as [|[k e] st]; simpl; auto.
  rewrite fold_js_max_fin.
  destruct (fold_max_spec (map timestamp (map snd st)) (timestamp e)) as [[Heq|Hin] [Hge Hall]];
    rewrite map_map in *.
  - split.
    + exists (k, e); split; [now left|simpl; symmetry; exact Heq].
    + intros [k' e'] [Hx|Hx]; [injection Hx; intros; subst; simpl; lia|].
      apply Hall; apply (in_map (fun x => timestamp (snd x))) in Hx; exact Hx.
  - split.
    + apply in_map_iff in Hin; destruct Hin as [x [Hx Hin]].
      exists x; split; [now right|exact Hx].
    + intros [k' e'] [Hx|Hx]; [injection Hx; intros; subst; simpl; lia|].
      apply Hall; apply (in_map (fun x => timestamp (snd x))) in Hx; exact Hx.
Qed.

Lemma integrity_loop_count (stat : string -> StatResult) (l : list (key * SyncEntry)) (r : Integrity) :
  let r' := integrity_loop stat l r in
  i_total r' = i_total r /\
  (i_verified r' + i_missing r' + i_corrupted r' + List.length (filter (other_stat_error stat) l))%nat
  = (i_verified r + i_missing r + i_corrupted r + List.length l)%nat.
Proof.
  revert r; induction l as [|[k item] l IH]; intro r; cbn zeta; simpl; [lia|].
  unfold other_stat_error at 1; simpl.
  destruct (stat_path stat (path item)) as [sz|code].
  - destruct (sz =? 0); simpl;
      match goal with |- context [integrity_loop stat l ?r'] => destruct (IH r') as [H1 H2] end;
      simpl in *; split; lia.
  - destruct (String.eqb code "ENOENT"); simpl;
      match goal with |- context [integrity_loop stat l ?r'] => destruct (IH r') as [H1 H2] end;
      simpl in *; split; lia.
Qed.

(** X11: [verifyIntegrity] reports [total] as the ledger size, and each entry
    is counted in at most one of [verified], [missing] and [corrupted]: the
    three add up to the total minus the entries whose [stat] fails with a code
    other than [ENOENT].  An entry without [path] (a failed download) is one
    of those, so a ledger holding one never has its three counts add up to
    [total]. *)
Theorem verifyIntegrity_accounting (stat : string -> StatResult) (st : list (key * SyncEntry)) :
  let r := verifyIntegrity stat st in
  i_total r = List.length st /\
  (i_verified r + i_missing r + i_corrupted r + List.length (filter (other_stat_error stat) st))%nat
  = List.length st /\
  ((exists e, In e st /\ path (snd e) = None) ->
   (i_verified r + i_missing r + i_corrupted r < List.length st)%nat).
Proof.
  cbn zeta; unfold verifyIntegrity.
  destruct (integrity_loop_count stat st (mkIntegrity 0 0 0 (List.length st))) as [H1 H2].
  simpl in H1, H2.
  refine (conj H1 (conj H2 _)).
  intros [e [Hin Hp]].
  assert (Hf : In e (filter (other_stat_error stat) st)).
  { apply filter_In; split; auto; unfold other_stat_error; rewrite Hp; reflexivity. }
  destruct (filter (other_stat_error stat) st) eqn:E; [destruct Hf|simpl in H2; lia].
Qed.

Lemma verifyIntegrity_accounting_witness :
  let r := verifyIntegrity (fun _ => StatOk 100) x9_state in
  (exists e, In e x9_state /\ path (snd e) = None) /\
  (i_verified r + i_missing r + i_corrupted r < List.length x9_state)%nat.
Proof.
  cbn zeta.
  assert (He : exists e, In e x9_state /\ path (snd e) = None).
  { exists (Some "B"%string, mkSyncEntry false None (Some "Request failed"%string) 20).
    split; [right; left; reflexivity|reflexivity]. }
  exact (conj He (proj2 (proj2 (verifyIntegrity_accounting (fun _ => StatOk 100) x9_state)) He)).
Defined.

(** X12: [permanentlyDeleteItem] is all or nothing: on success the tracked
    file existed and is gone (every other file kept), and the id is dropped
    from both ledgers, other ids keeping their entries; when it throws
    (unknown id, no [path], or no such file) the ledgers and files are
    unchanged. *)
Theorem permanentlyDeleteItem_all_or_nothing (s : DeletionState) (k : key) :
  match permanentlyDeleteItem s k with
  | (Ret b, s') =>
      b = true /\
      (exists d p, JsMap.get (ds_deleted s) k = Some d /\ del_path d = Some p /\
                   In p (ds_files s) /\ ~ In p (ds_files s') /\
                   (forall f, f <> p -> (In f (ds_files s') <-> In f (ds_files s)))) /\
      JsMap.get (ds_syncState s') k = None /\ JsMap.get (ds_deleted s') k = None /\
      (forall k', k' <> k -> JsMap.get (ds_syncState s') k' = JsMap.get (ds_syncState s) k' /\
                             JsMap.get (ds_deleted s') k' = JsMap.get (ds_deleted s) k')
  | (Throw _, s') => s' = s
  end.
Proof.
  unfold permanentlyDeleteItem.
  destruct (JsMap.get (ds_deleted s) k) as [d|] eqn:Hd; [|reflexivity].
  unfold unlink.
  destruct (del_path d) as [p|] eqn:Hp; [|reflexivity].
  destruct (existsb (String.eqb p) (ds_files s)) eqn:Hex; [|reflexivity].
  simpl; split; [reflexivity|split; [|split; [|split]]].
  - exists d, p; refine (conj eq_refl (conj Hp (conj _ (conj _ _)))).
    + apply existsb_exists in Hex; destruct Hex as [f [Hf Heq]].
      apply String.eqb_eq in Heq; now subst.
    + rewrite filter_In; intros [_ Hn]; now rewrite String.eqb_refl in Hn.
    + intros f Hfp; rewrite filter_In; split; [tauto|intro Hin; split; auto].
      destruct (String.eqb f p) eqn:E; auto; apply String.eqb_eq in E; contradiction.
  - rewrite get_delete, key_eqb_refl; reflexivity.
  - rewrite get_delete, key_eqb_refl; reflexivity.
  - intros k' Hk'; rewrite !get_delete.
    destruct (key_eqb k' k) eqn:E; [apply key_eqb_true in E; contradiction|auto].
Qed.

(** X13: [restoreDeletedItem] on a tracked id keeps the file and the sync
    ledger and drops the id from the deleted-items ledger; it returns [true]
    unless the entry has no [path] (then its log line throws a [TypeError]
    after the removal); either way a later [permanentlyDeleteItem] of that id is
    refused with "Item not found in deleted items list" and changes nothing. *)
Theorem restore_then_delete_refused (s : DeletionState) (k : key) (d : DeletedEntry)
  (Hd : JsMap.get (ds_deleted s) k = Some d) :
  let (r1, s1) := restoreDeletedItem s k in
  ds_files s1 = ds_files s /\ ds_syncState s1 = ds_syncState s /\
  JsMap.get (ds_deleted s1) k = None /\
  r1 = match del_path d with Some _ => Ret true | None => Throw TypeError end /\
  permanentlyDeleteItem s1 k = (Throw (Error "Item not found in deleted items list"), s1).
Proof.
  unfold restoreDeletedItem; rewrite Hd.
  assert (Hg : JsMap.get (JsMap.delete (ds_deleted s) k) k = None)
    by (rewrite get_delete, key_eqb_refl; reflexivity).
  destruct (del_path d) as [p|] eqn:Hp; simpl;
    refine (conj eq_refl (conj eq_refl (conj Hg (conj eq_refl _))));
    unfold permanentlyDeleteItem; simpl; now rewrite Hg.
Qed.

Definition x13_state : DeletionState :=
  mkDeletionState x9_state x9_deleted ["/photos/a.jpg"%string; "/photos/c.jpg"%string].

Lemma restore_then_delete_refused_witness :
  JsMap.get (ds_deleted x13_state) (Some "C"%string) =
    Some (mkDeleted (Some "/photos/c.jpg"%string) (Some 30)) /\
  permanentlyDeleteItem (snd (restoreDeletedItem x13_state (Some "C"%string))) (Some "C"%string)
  = (Throw (Error "Item not found in deleted items list"),
     snd (restoreDeletedItem x13_state (Some "C"%string))).
Proof.
  assert (Hd : JsMap.get (ds_deleted x13_state) (Some "C"%string) =
               Some (mkDeleted (Some "/photos/c.jpg"%string) (Some 30))) by reflexivity.
  refine (conj Hd _).
  pose proof (restore_then_delete_refused x13_state (Some "C"%string) _ Hd) as H.
  destruct (restoreDeletedItem x13_state (Some "C"%string)) as [r1 s1].
  exact (proj2 (proj2 (proj2 (proj2 H)))).
Defined.

(* ------------------------------------------------------------------ *)
(** ** Choosing the sync directory *)



(* ------------------------------------------------------------------ *)
(** ** The order of the download queue *)

Fixpoint chain {A} (R : A -> A -> Prop) (l : list A) : Prop :=
  match l with
  | x :: ((y :: _) as r) => R x y /\ chain R r
  | _ => True
  end.

Section Sorting.
Context {A : Type} (before : A -> A -> bool) (R : A -> A -> Prop).
Hypothesis before_true : forall x y, before x y = true -> R x y.
Hypothesis before_false : forall x y, before x y = false -> R y x.

Lemma insert_by_perm (x : A) (l : list A) : Permutation (insert_by before x l) (x :: l).
Proof.
  induction l as [|y r IH]; simpl; auto.
  destruct (before x y); auto.
  eapply perm_trans; [apply perm_skip, IH|apply perm_swap].
Qed.

Lemma stable_sort_perm_acc (l acc : list A) :
  Permutation (fold_left (fun acc x => insert_by before x acc) l acc) (acc ++ l).
Proof.
  revert acc; induction l as [|x l IH]; intro acc; simpl.
  - now rewrite app_nil_r.
  - eapply perm_trans; [apply IH|].
    eapply perm_trans; [apply Permutation_app_tail, insert_by_perm|].
    simpl; apply Permutation_middle.
Qed.

Lemma stable_sort_perm (l : list A) : Permutation l (stable_sort before l).
Proof. unfold stable_sort; symmetry; apply (stable_sort_perm_acc l []). Qed.

Lemma insert_by_chain_cons (x y : A) (r : list A) :
  R y x -> chain R (y :: r) -> chain R (y :: insert_by before x r).
Proof.
  revert y; induction r as [|z r IH]; intros y Hyx Hc; simpl.
  - split; auto.
  - destruct (before x z) eqn:E; simpl in *.
    + destruct Hc as [Hyz Hc]; refine (conj Hyx (conj (before_true _ _ E) Hc)).
    + destruct Hc as [Hyz Hc]; split; [exact Hyz|].
      apply IH; [apply before_false, E|exact Hc].
Qed.

Lemma insert_by_chain (x : A) (l : list A) : chain R l -> chain R (insert_by before x l).
Proof.
  destruct l as [|y r]; simpl; [auto|intro Hc].
  destruct (before x y) eqn:E.
  - exact (conj (before_true _ _ E) Hc).
  - apply insert_by_chain_cons; [apply before_false, E|exact Hc].
Qed.

Lemma stable_sort_chain (l : list A) : chain R (stable_sort before l).
Proof.
  unfold stable_sort.
  assert (H : forall acc, chain R acc ->
                chain R (fold_left (fun acc x => insert_by before x acc) l acc)).
  { induction l as [|x l IH]; intros acc Hc; simpl; auto.
    apply IH, insert_by_chain, Hc. }
  apply H; simpl; auto.
Qed.
End Sorting.

Lemma chain_nth {A} (R : A -> A -> Prop) (l : list A) (n : nat) (a b : A) :
  chain R l -> nth_error l n = Some a -> nth_error l (S n) = Some b -> R a b.
Proof.
  revert n; induction l as [|x l IH]; intros n Hc Ha Hb; [destruct n; discriminate|].
  destruct l as [|y l]; [destruct n as [|[|n]]; discriminate|].
  destruct Hc as [Hxy Hc]; destruct n as [|n].
  - simpl in Ha, Hb; injection Ha as <-; injection Hb as <-; exact Hxy.
  - exact (IH n Hc Ha Hb).
Qed.

Lemma set_nth_perm {A} (l : list A) (n : nat) (v v' : A) :
  nth_error l n = Some v -> Permutation (v' :: l) (v :: set_nth n v' l).
Proof.
  revert n; induction l as [|y r IH]; intros n H; [destruct n; discriminate|].
  destruct n as [|n]; simpl in *.
  - injection H as <-; apply perm_swap.
  - eapply perm_trans; [apply perm_swap|].
    eapply perm_trans; [apply perm_skip, (IH n H)|apply perm_swap].
Qed.

Lemma nth_error_set_nth_same {A} (l : list A) (n : nat) (x v : A) :
  nth_error l n = Some v -> nth_error (set_nth n x l) n = Some x.
Proof.
  revert n; induction l as [|y r IH]; intros n H; [destruct n; discriminate|].
  destruct n; simpl in *; auto.
Qed.

Lemma nth_error_set_nth_other {A} (l : list A) (n m : nat) (x : A) :
  n <> m -> nth_error (set_nth n x l) m = nth_error l m.
Proof.
  revert n m; induction l as [|y r IH]; intros n m H; [destruct n; reflexivity|].
  destruct n, m; simpl; auto; congruence.
Qed.

Lemma swap_perm {A} (l : list A) (i j : nat) : Permutation l (swap l i j).
Proof.
  unfold swap.
  destruct (nth_error l i) as [vi|] eqn:Hi; [|auto].
  destruct (nth_error l j) as [vj|] eqn:Hj; [|auto].
  assert (H1 := set_nth_perm l i vi vj Hi).
  assert (Hj' : nth_error (set_nth i vj l) j = Some vj).
  { destruct (Nat.eq_dec i j) as [<-|Hne].
    - now apply nth_error_set_nth_same with (v := vi).
    - now rewrite nth_error_set_nth_other. }
  assert (H2 := set_nth_perm (set_nth i vj l) j vj vi Hj').
  apply Permutation_cons_inv with (a := vj).
  eapply perm_trans; [exact H1|exact H2].
Qed.

Lemma fy_loop_perm {A} (pick : nat -> nat) (i : nat) (l : list A) :
  Permutation l (fy_loop pick i l).
Proof.
  revert l; induction i as [|i IH]; intro l; simpl; auto.
  eapply perm_trans; [apply swap_perm|apply IH].
Qed.

(** X15: whatever [settings.syncOrder] is, [sortItemsBySettings] returns the
    queue's items rearranged, none lost or repeated (also for 'random', for
    any random draws).  'newest' puts them in non-increasing creation time,
    'oldest' in non-decreasing creation time, and any other setting (also
    none) leaves the order as it was. *)
Theorem sortItemsBySettings_perm (getTime : string -> option Z) (pick : nat -> nat)
  (syncOrder : option string) (items r : list MediaObj)
  (Hr : sortItemsBySettings getTime pick syncOrder items = Some r) :
  Permutation items r /\
  (syncOrder = Some "newest"%string ->
   forall n a b, nth_error r n = Some a -> nth_error r (S n) = Some b ->
                 time_of getTime b <= time_of getTime a) /\
  (syncOrder = Some "oldest"%string ->
   forall n a b, nth_error r n = Some a -> nth_error r (S n) = Some b ->
                 time_of getTime a <= time_of getTime b) /\
  (~ In syncOrder [Some "newest"%string; Some "oldest"%string; Some "random"%string] ->
   r = items).
Proof.
  unfold sortItemsBySettings in Hr.
  set (t := time_of getTime) in *.
  set (dated := ((List.length items <=? 1)%nat || forallb _ items)) in Hr.
  assert (Hnew : forall x y, (t y - t x <? 0) = true -> t y <= t x)
    by (intros x y H; apply Z.ltb_lt in H; lia).
  assert (Hnew' : forall x y, (t y - t x <? 0) = false -> t x <= t y)
    by (intros x y H; apply Z.ltb_ge in H; lia).
  assert (Hold : forall x y, (t x - t y <? 0) = true -> t x <= t y)
    by (intros x y H; apply Z.ltb_lt in H; lia).
  assert (Hold' : forall x y, (t x - t y <? 0) = false -> t y <= t x)
    by (intros x y H; apply Z.ltb_ge in H; lia).
  destruct (opt_str_eqb syncOrder (Some "newest"%string)) eqn:En.
  { apply opt_str_eqb_true in En; subst syncOrder.
    destruct dated; [|discriminate]; injection Hr as <-.
    refine (conj (stable_sort_perm _ _) (conj _ (conj _ _))).
    - intros _ n a b Ha Hb.
      exact (chain_nth (fun a b => t b <= t a) _ n a b
               (stable_sort_chain _ (fun a b => t b <= t a) Hnew Hnew' items) Ha Hb).
    - discriminate.
    - intro H; exfalso; apply H; now left. }
  destruct (opt_str_eqb syncOrder (Some "oldest"%string)) eqn:Eo.
  { apply opt_str_eqb_true in Eo; subst syncOrder.
    destruct dated; [|discriminate]; injection Hr as <-.
    refine (conj (stable_sort_perm _ _) (conj _ (conj _ _))).
    - discriminate.
    - intros _ n a b Ha Hb.
      exact (chain_nth (fun a b => t a <= t b) _ n a b
               (stable_sort_chain _ (fun a b => t a <= t b) Hold Hold' items) Ha Hb).
    - intro H; exfalso; apply H; right; now left. }
  assert (Nn : syncOrder <> Some "newest"%string)
    by (intro H; rewrite H, opt_str_eqb_refl in En; discriminate).
  assert (No : syncOrder <> Some "oldest"%string)
    by (intro H; rewrite H, opt_str_eqb_refl in Eo; discriminate).
  destruct (opt_str_eqb syncOrder (Some "random"%string)) eqn:Er.
  { apply opt_str_eqb_true in Er; subst syncOrder.
    injection Hr as <-.
    refine (conj (fy_loop_perm _ _ _) (conj _ (conj _ _)));
      try (intro H; contradiction).
    intro H; exfalso; apply H; right; right; now left. }
  injection Hr as <-.
  refine (conj (Permutation_refl _) (conj _ (conj _ (fun _ => eq_refl))));
    intro H; contradiction.
Qed.

Definition x15_item (i d : string) : MediaObj :=
  mkItem (Some i) (Some (i ++ ".jpg")%string) None
         (Some (mkMeta (Some d) true false None None)).

Definition x15_items : list MediaObj :=
  [x15_item "a" "2020-01-01T00:00:00Z"; x15_item "b" "2021-06-01T00:00:00Z";
   x15_item "c" "2019-03-01T00:00:00Z"].

Lemma sortItemsBySettings_perm_witness :
  sortItemsBySettings IsoDate.getTime (fun _ => O) (Some "newest"%string) x15_items =
    Some [x15_item "b" "2021-06-01T00:00:00Z"; x15_item "a" "2020-01-01T00:00:00Z";
          x15_item "c" "2019-03-01T00:00:00Z"] /\
  Permutation x15_items
    [x15_item "b" "2021-06-01T00:00:00Z"; x15_item "a" "2020-01-01T00:00:00Z";
     x15_item "c" "2019-03-01T00:00:00Z"].
Proof.
  assert (H : sortItemsBySettings IsoDate.getTime (fun _ => O) (Some "newest"%string) x15_items =
    Some [x15_item "b" "2021-06-01T00:00:00Z"; x15_item "a" "2020-01-01T00:00:00Z";
          x15_item "c" "2019-03-01T00:00:00Z"]) by (vm_compute; reflexivity).
  exact (conj H (proj1 (sortItemsBySettings_perm _ _ _ _ _ H))).
Defined.

(* ------------------------------------------------------------------ *)
(** ** Removing empty directories *)

Lemma cleanupEntry_files_no_empty (e : Entry) :
  files_of (cleanupEntry e) = files_of_entry e /\ no_empty_dirs (cleanupEntry e) = true.
Proof.
  induction e as [n|n cs Hcs] using Entry_ind'; [split; reflexivity|].
  assert (L : files_of (flat_map cleanupEntry cs) = flat_map files_of_entry cs /\
              no_empty_dirs (flat_map cleanupEntry cs) = true).
  { induction Hcs as [|c r [Hc1 Hc2] _ [Hr1 Hr2]]; [split; reflexivity|].
    simpl; unfold files_of, no_empty_dirs in *.
    rewrite flat_map_app, forallb_app, Hc1, Hc2, Hr1, Hr2; split; reflexivity. }
  destruct L as [L1 L2].
  change (cleanupEntry (DirE n cs))
    with (match flat_map cleanupEntry cs with [] => [] | cs' => [DirE n cs'] end).
  change (files_of_entry (DirE n cs)) with (map (cons n) (files_of cs)).
  destruct (flat_map cleanupEntry cs) as [|e l] eqn:E.
  - unfold files_of at 2; rewrite <- L1; split; reflexivity.
  - split.
    + transitivity (map (cons n) (files_of (e :: l)) ++ []); [reflexivity|].
      rewrite app_nil_r, L1; reflexivity.
    + transitivity (no_empty_dirs (e :: l) && true); [reflexivity|].
      rewrite andb_true_r; exact L2.
Qed.

Lemma cleanupDir_files_no_empty (cs : list Entry) :
  files_of (cleanupDir cs) = files_of cs /\ no_empty_dirs (cleanupDir cs) = true.
Proof.
  induction cs as [|c r [H1 H2]]; [split; reflexivity|].
  destruct (cleanupEntry_files_no_empty c) as [C1 C2].
  change (cleanupDir (c :: r)) with (cleanupEntry c ++ cleanupDir r).
  change (files_of (c :: r)) with (files_of_entry c ++ files_of r).
  unfold files_of, no_empty_dirs in *.
  rewrite flat_map_app, forallb_app, C1, C2, H1, H2; split; reflexivity.
Qed.

Lemma no_empty_entry_files (e : Entry) : no_empty_entry e = true -> files_of_entry e <> [].
Proof.
  induction e as [n|n cs Hcs] using Entry_ind'; [discriminate|].
  simpl; destruct Hcs as [|c r Hc _]; [discriminate|].
  intros Hne H; simpl in Hne; apply andb_true_iff in Hne; destruct Hne as [Hn _].
  apply map_eq_nil in H; simpl in H; apply app_eq_nil in H.
  exact (Hc Hn (proj1 H)).
Qed.

Lemma no_empty_dirs_files (l : list Entry) :
  no_empty_dirs l = true -> l <> [] -> files_of l <> [].
Proof.
  destruct l as [|e l]; [contradiction|]; unfold no_empty_dirs, files_of; simpl.
  intros Hne _ H; apply andb_true_iff in Hne; apply app_eq_nil in H.
  exact (no_empty_entry_files e (proj1 Hne) (proj1 H)).
Qed.

(** X16: [cleanupEmptyDirs] keeps every file at its path (and in the same
    [readdir] order), leaves no empty directory below the sync directory,
    and removes a directory exactly when no file lies anywhere below it:
    [cleanupDir] finds a directory empty exactly when it holds no file at
    any depth. *)
Theorem cleanupEmptyDirs_spec (cs : list Entry) :
  files_of (cleanupDir cs) = files_of cs /\
  no_empty_dirs (cleanupDir cs) = true /\
  (cleanupDir cs = [] <-> files_of cs = []).
Proof.
  destruct (cleanupDir_files_no_empty cs) as [H1 H2].
  refine (conj H1 (conj H2 _)); split; intro H.
  - rewrite <- H1, H; reflexivity.
  - destruct (cleanupDir cs) as [|e l] eqn:E; [reflexivity|].
    exfalso; apply (no_empty_dirs_files (e :: l) H2); [discriminate|now rewrite H1].
Qed.

(* ------------------------------------------------------------------ *)
(** ** The batch loop and the status report *)

Lemma download_loop_progress (b : Z) (Hb : 1 <= b) (fuel : nat) (q : list MediaObj) :
  (List.length q < fuel)%nat ->
  exists bs, download_loop (Some b) false fuel q = Some bs /\ List.concat bs = q /\
             Forall (fun batch => (1 <= List.length batch)%nat /\ Z.of_nat (List.length batch) <= b) bs.
Proof.
  revert q; induction fuel as [|f IH]; intros q Hf; [lia|].
  simpl.
  destruct q as [|x r]; [exists []; simpl; auto|].
  simpl (0 <? _)%nat; simpl (negb false); simpl andb.
  set (n := List.length (x :: r)).
  assert (Hmin : 1 <= Z.min b (Z.of_nat n) /\ Z.min b (Z.of_nat n) <= Z.of_nat n)
    by (subst n; simpl List.length; lia).
  unfold batch_count, js_splice0, js_slice0.
  destruct (Z.min b (Z.of_nat n) <? 0) eqn:Hneg; [apply Z.ltb_lt in Hneg; lia|].
  set (k := Z.to_nat (Z.min b (Z.of_nat n))).
  assert (Hk1 : (1 <= k)%nat) by (subst k; lia).
  assert (Hkn : (k <= n)%nat) by (subst k; lia).
  destruct (IH (skipn k (x :: r))) as [bs [Hrun [Hcat Hall]]].
  { rewrite length_skipn; subst n; simpl List.length in *; lia. }
  rewrite Hrun; exists (firstn k (x :: r) :: bs).
  refine (conj eq_refl (conj _ _)).
  - simpl; rewrite Hcat; apply firstn_skipn.
  - constructor; [|exact Hall].
    rewrite length_firstn; subst n k; split; [lia|].
    rewrite Nat2Z.inj_min, Z2Nat.id by lia; lia.
Qed.

Lemma download_loop_stuck (batchSize : option Z)
  (Hbs : match batchSize with None => True | Some b => b <= 0 end)
  (fuel : nat) (q : list MediaObj) :
  q <> [] -> download_loop batchSize false fuel q = None.
Proof.
  intro Hq; induction fuel as [|f IH]; [reflexivity|].
  simpl.
  destruct q as [|x r]; [contradiction|].
  simpl (0 <? _)%nat; simpl (negb false); simpl andb.
  assert (Hs : js_splice0 (x :: r) (batch_count batchSize (List.length (x :: r))) = x :: r).
  { unfold js_splice0, batch_count; destruct batchSize as [b|]; [|reflexivity].
    replace (Z.to_nat (Z.min b (Z.of_nat (List.length (x :: r))))) with O by lia.
    reflexivity. }
  rewrite Hs, IH; reflexivity.
Qed.

(** X17: in [processDownloadQueue], while the sync is not cancelled,
    every batch settles and the status update returns, a [settings.batchSize] of 1 or more takes the
    queue in consecutive batches of 1 to [batchSize] items, each item in
    exactly one batch and in queue order, and leaves the loop once the
    queue is empty.  A [batchSize] that is [NaN] (unset) or 0 or less (an
    empty field gives 0) never shortens a non-empty queue, so the loop
    never ends. *)
Theorem download_loop_batches (batchSize : option Z) (q : list MediaObj) :
  (forall b, batchSize = Some b -> 1 <= b ->
   exists bs, download_loop batchSize false (S (List.length q)) q = Some bs /\
              List.concat bs = q /\
              Forall (fun batch => (1 <= List.length batch)%nat /\
                                   Z.of_nat (List.length batch) <= b) bs) /\
  ((batchSize = None \/ exists b, batchSize = Some b /\ b <= 0) ->
   q <> [] -> forall fuel, download_loop batchSize false fuel q = None).
Proof.
  split.
  - intros b -> Hb; apply download_loop_progress; [exact Hb|lia].
  - intros Hbs Hq fuel; apply download_loop_stuck; [|exact Hq].
    destruct Hbs as [->|[b [-> Hb]]]; [exact I|exact Hb].
Qed.

(** X18: [updateSyncStatus] never reports a number of processed items:
    [this.discoveryResults] is a plain object without [length], so
    [processedItems] is [NaN] and [totalItems] is [undefined] whatever the
    queue, while [syncedItems] and [failedItems] count every sync-state
    entry once; with no discovery results it throws a [TypeError]. *)
Theorem updateSyncStatus_progress_unknown (discoveryResults : option DiscoveryResults)
  (q : list MediaObj) (st : list (key * SyncEntry)) (del : list (key * DeletedEntry))
  (active : nat) :
  match updateSyncStatus discoveryResults q st del active with
  | Ret rep =>
      rep_processedItems rep = CNaN /\ rep_totalItems rep = CUndefined /\
      (rep_syncedItems rep + rep_failedItems rep)%nat = List.length st
  | Throw e => discoveryResults = None /\ e = TypeError
  end.
Proof.
  destruct discoveryResults as [r|]; simpl; [|split; reflexivity].
  refine (conj eq_refl (conj eq_refl _)).
  rewrite filter_partition_length; apply length_map.
Qed.

(* ------------------------------------------------------------------ *)
(** ** The sync cache: update and lookup *)

Lemma get_replace_other {V} (m : list (key * V)) k k' v :
  key_eqb k' k = false -> JsMap.get (JsMap.replace m k v) k' = JsMap.get m k'.
Proof.
  intro Hne; induction m as [|[i w] r IH]; simpl; auto.
  destruct (key_eqb k i) eqn:Eki; simpl.
  - apply key_eqb_true in Eki; subst i; rewrite Hne; exact IH.
  - destruct (key_eqb k' i); auto.
Qed.

Lemma get_app_other {V} (m : list (key * V)) k k' v :
  key_eqb k' k = false -> JsMap.get (m ++ [(k, v)]) k' = JsMap.get m k'.
Proof.
  intro Hne; induction m as [|[i w] r IH]; simpl.
  - now rewrite Hne.
  - destruct (key_eqb k' i); auto.
Qed.

Lemma get_set_other {V} (m : list (key * V)) k k' v :
  key_eqb k' k = false -> JsMap.get (JsMap.set m k v) k' = JsMap.get m k'.
Proof.
  intro Hne; unfold JsMap.set; destruct (JsMap.has m k).
  - now apply get_replace_other.
  - now apply get_app_other.
Qed.

(** X19: after [updateItem(itemId, data)], [getItem(itemId)] returns the
    caller's fields with [lastSync] set to the update time, [isItemSynced]
    is [true] for it, every other id keeps its entry, and the cache is
    dirty, so the next [saveCache] writes the new entry to the cache file. *)
Theorem updateItem_getItem (now : Z) (c : SyncCache) (itemId : key) (data : CacheEntry) :
  let c' := updateItem now c itemId data in
  getItem c' itemId =
    Some (mkCache (localPath data) (fileName data) (verified data) (Some now)) /\
  isItemSynced c' itemId = true /\
  (forall k, k <> itemId -> getItem c' k = getItem c k) /\
  isDirty c' = true /\
  option_map (fun f => JsMap.get f itemId) (cacheFile (saveCache c')) =
    Some (Some (mkCache (localPath data) (fileName data) (verified data) (Some now))).
Proof.
  cbn zeta; unfold getItem, isItemSynced, updateItem, saveCache; simpl.
  rewrite get_set_same.
  refine (conj eq_refl (conj eq_refl (conj _ (conj eq_refl eq_refl)))).
  intros k Hk; apply get_set_other.
  destruct (key_eqb k itemId) eqn:E; auto; apply key_eqb_true in E; contradiction.
Qed.
